(** * steam_data_collection: the resumable batch-collection engine

    A shallow embedding of [src/steam_data_collection.py]: the HTTP client
    [get_request], the checkpoint store ([reset_index], [get_index]), the
    output sink ([prepare_data_file]) and the batch orchestrator
    ([get_app_data], [process_batches]).

    Conventions of the embedding.
    - Python and numpy integers are [Z] (no 64-bit wrap-around is modelled:
      the indices of the script are far below 2^63).
    - The file system is a finite map from paths to file texts; directories
      always exist and every open succeeds unless the file is absent and
      the mode is ['r'].
    - A record holds texts that the csv writer can render and encode, so
      that a write to an open file never fails.
    - Console output and the wall-clock pauses of the orchestrator have no
      effect on the files and are left out of its model; the HTTP client,
      whose behaviour is its sequence of requests, diagnostics and pauses,
      carries an explicit event trace. *)

From Stdlib Require Import ZArith List String Ascii Bool Lia.
From Stdlib Require Import DecimalString DecimalZ.
From stdpp Require Import base option list strings gmap.

Local Open Scope Z_scope.

(** ** Python values used by the module *)

Module Py.

(** Exceptions that the modelled code can raise or let through. *)
Inductive exn : Type :=
| NameError (name : string)
| ValueError
| FileNotFoundError
| IndexError
| ZeroDivisionError
| SSLError (msg : string)
| ConnectionError (msg : string)
| JSONDecodeError
| RecursionError
| ParserError (msg : string).

Inductive result (A : Type) : Type :=
| Ok (a : A)
| Raise (e : exn).
Arguments Ok {A} a.
Arguments Raise {A} e.

Definition is_ok {A} (r : result A) : bool :=
  match r with Ok _ => true | Raise _ => false end.

Definition nl : ascii := ascii_of_nat 10.
Definition cr : ascii := ascii_of_nat 13.
Definition dquote : ascii := ascii_of_nat 34.

Definition chars (s : string) : list ascii := list_ascii_of_string s.
Definition text (l : list ascii) : string := string_of_list_ascii l.

(** [str(n)] for an integer. *)
Definition str (n : Z) : string := NilZero.string_of_int (Z.to_int n).

(** Characters that [int()] skips around an ASCII literal: 0x09-0x0D and
    the blank (0x1C-0x1F are no white space for [int()]). *)
Definition is_space (c : ascii) : bool :=
  let n := nat_of_ascii c in
  ((9 <=? n)%nat && (n <=? 13)%nat) || (n =? 32)%nat.

Definition is_digit (c : ascii) : bool :=
  let n := nat_of_ascii c in (48 <=? n)%nat && (n <=? 57)%nat.

Definition is_underscore (c : ascii) : bool := Ascii.eqb c "_"%char.

Fixpoint drop_spaces (l : list ascii) : list ascii :=
  match l with
  | c :: r => if is_space c then drop_spaces r else l
  | [] => []
  end.

Definition strip (l : list ascii) : list ascii :=
  rev (drop_spaces (rev (drop_spaces l))).

(** The digit part of an integer literal: digits, with single underscores
    allowed between two digits. [prev] tells whether the previous character
    was a digit. *)
Fixpoint digits_ok (prev : bool) (l : list ascii) : bool :=
  match l with
  | [] => prev
  | c :: r =>
      if is_digit c then digits_ok true r
      else if is_underscore c then prev && digits_ok false r
      else false
  end.

Definition digits_value (l : list ascii) : option Z :=
  if digits_ok false l then
    option_map Z.of_uint
      (NilEmpty.uint_of_string (text (filter (fun c => negb (is_underscore c)) l)))
  else None.

(** [int(s)] for an ASCII string, base 10: [None] stands for ValueError.
    On a text with characters beyond ASCII Python's [int] consults the
    Unicode database (further spaces and decimal digits), which is not
    modelled here: [get_index_with] below takes the conversion as a
    parameter, and the model reads with this [int] only what [print]
    wrote. *)
Definition int (s : string) : option Z :=
  match strip (chars s) with
  | c :: r =>
      if Ascii.eqb c "-"%char then option_map Z.opp (digits_value r)
      else if Ascii.eqb c "+"%char then digits_value r
      else digits_value (c :: r)
  | [] => None
  end.

(** [f.readline()] on a text file opened with universal newlines: the
    text up to the first line end, which is returned as a line feed. *)
Fixpoint readline (s : string) : string :=
  match s with
  | EmptyString => EmptyString
  | String c r =>
      if Ascii.eqb c nl || Ascii.eqb c cr then String nl EmptyString
      else String c (readline r)
  end.

(** [os.path.join(a, b)] on a POSIX system. *)
Definition ends_with_slash (a : string) : bool :=
  match rev (chars a) with
  | c :: _ => Ascii.eqb c "/"%char
  | [] => false
  end.

Definition path_join (a b : string) : string :=
  match b with
  | String c _ =>
      if Ascii.eqb c "/"%char then b
      else if ends_with_slash a then a +:+ b
      else match a with
           | EmptyString => b
           | _ => a +:+ "/" +:+ b
           end
  | EmptyString =>
      if ends_with_slash a then a
      else match a with
           | EmptyString => EmptyString
           | _ => a +:+ "/"
           end
  end.

(** [l[start:stop]] for a list (and, positionally, a data frame). *)
Definition clamp_index (len i : Z) : Z :=
  if i <? 0 then Z.max 0 (i + len) else Z.min i len.

Definition slice {A} (l : list A) (start stop : Z) : list A :=
  let len := Z.of_nat (length l) in
  let lo := clamp_index len start in
  let hi := clamp_index len stop in
  take (Z.to_nat (hi - lo)) (drop (Z.to_nat lo) l).

(** [numpy.arange(start, stop, step)] on integers: [None] stands for the
    error raised on a zero step. *)
Definition ceil_div (a b : Z) : Z := - ((- a) / b).

Definition arange (start stop step : Z) : option (list Z) :=
  if step =? 0 then None
  else
    let n := Z.to_nat (ceil_div (stop - start) step) in
    Some (map (fun i => start + Z.of_nat i * step) (seq 0 n)).

End Py.

(** ** The [csv] writer (excel dialect, minimal quoting) *)

Module Csv.
Import Py.

Definition special (c : ascii) : bool :=
  Ascii.eqb c ","%char || Ascii.eqb c dquote || Ascii.eqb c cr || Ascii.eqb c nl.

Fixpoint double_quotes (l : list ascii) : list ascii :=
  match l with
  | [] => []
  | c :: r =>
      if Ascii.eqb c dquote then dquote :: dquote :: double_quotes r
      else c :: double_quotes r
  end.

Definition field (s : string) : list ascii :=
  if existsb special (chars s)
  then dquote :: double_quotes (chars s) ++ [dquote]
  else chars s.

Fixpoint join_fields (fs : list (list ascii)) : list ascii :=
  match fs with
  | [] => []
  | [f] => f
  | f :: r => f ++ ","%char :: join_fields r
  end.

(** [writer.writerow(fields)]: the text of one row, line terminator
    included. A row made of one empty field is written quoted. *)
Definition row (fields : list string) : string :=
  match fields with
  | [EmptyString] => text [dquote; dquote; cr; nl]
  | _ => text (join_fields (map field fields) ++ [cr; nl])
  end.

(** A record is a Python dict from column names to values, the values
    taken as the writer renders them ([None] as the empty text). *)
Definition dict_row (columns : list string) (d : gmap string string) : string :=
  row (map (fun k => default EmptyString (d !! k)) columns).

(** [DictWriter(f, fieldnames=columns, extrasaction='ignore').writerows]. *)
Definition rows (columns : list string) (ds : list (gmap string string)) : string :=
  foldr String.append EmptyString (map (dict_row columns) ds).

(** [DictWriter(f, fieldnames=columns).writeheader()]. *)
Definition header (columns : list string) : string := row columns.

End Csv.

(** ** Files: a state-and-exception monad over the file system *)

Module Fs.
Import Py.

Definition M (A : Type) : Type :=
  gmap string string -> gmap string string * result A.

Definition ret {A} (a : A) : M A := fun fs => (fs, Ok a).
Definition raise {A} (e : exn) : M A := fun fs => (fs, Raise e).
Definition bind {A B} (m : M A) (k : A -> M B) : M B :=
  fun fs =>
    match m fs with
    | (fs', Ok a) => k a fs'
    | (fs', Raise e) => (fs', Raise e)
    end.
Definition lift {A} (r : result A) : M A := fun fs => (fs, r).

(** [open(p, 'w')] followed by writing [s]. *)
Definition write_file (p s : string) : M unit :=
  fun fs => (<[p := s]> fs, Ok tt).

(** [open(p, 'a')] followed by writing [s]; the file is created when
    it is absent. *)
Definition append_file (p s : string) : M unit :=
  fun fs => (<[p := default EmptyString (fs !! p) +:+ s]> fs, Ok tt).

(** [open(p, 'r')] followed by [readline()]. *)
Definition read_first_line (p : string) : M string :=
  fun fs =>
    match fs !! p with
    | Some s => (fs, Ok (readline s))
    | None => (fs, Raise FileNotFoundError)
    end.

(** [try: m except FileNotFoundError: h]. *)
Definition catch_file_not_found {A} (m : M A) (h : M A) : M A :=
  fun fs =>
    match m fs with
    | (fs', Raise FileNotFoundError) => h fs'
    | r => r
    end.

End Fs.

Notation "'do' x <- m ; k" := (Fs.bind m (fun x => k))
  (at level 10, x name, m at level 100, k at level 200).
Notation "'perform' m ; k" := (Fs.bind m (fun _ => k))
  (at level 10, m at level 100, k at level 200).

Import Py.

(** A row of the [app_list] data frame. *)
Record entity : Type := Entity { appid : Z; name : string }.

(** The supplied parser: a record, or the exception it raises. *)
Definition parser_t : Type := Z -> string -> result (gmap string string).

(** ** The checkpoint store and the sink initialisation *)

Definition reset_index (download_path index_filename : string) : Fs.M unit :=
  let rel_path := path_join download_path index_filename in
  Fs.write_file rel_path (str 0 +:+ String nl EmptyString).

(** [get_index] with the builtin [int], applied to the decoded first
    line, as a parameter ([None] for the ValueError it raises). *)
Definition get_index_with (int_ : string -> option Z)
    (download_path index_filename : string) : Fs.M Z :=
  Fs.catch_file_not_found
    (let rel_path := path_join download_path index_filename in
     do line <- Fs.read_first_line rel_path ;
     match int_ line with
     | Some index => Fs.ret index
     | None => Fs.raise ValueError
     end)
    (Fs.ret 0).

Definition get_index (download_path index_filename : string) : Fs.M Z :=
  Fs.catch_file_not_found
    (let rel_path := path_join download_path index_filename in
     do line <- Fs.read_first_line rel_path ;
     match int line with
     | Some index => Fs.ret index
     | None => Fs.raise ValueError
     end)
    (Fs.ret 0).

Definition prepare_data_file (download_path filename : string) (index : Z)
    (columns : list string) : Fs.M unit :=
  if index =? 0 then
    let rel_path := path_join download_path filename in
    Fs.write_file rel_path (Csv.header columns)
  else Fs.ret tt.

(** ** The batch orchestrator *)

(** [get_app_data] iterates over the module-level [app_list] (its first
    argument here), not over a list it is passed. The first exception of
    the parser leaves the loop. *)
Fixpoint collect (parser : parser_t) (rows : list entity)
    : result (list (gmap string string)) :=
  match rows with
  | [] => Ok []
  | row :: rest =>
      match parser (appid row) (name row) with
      | Raise e => Raise e
      | Ok data =>
          match collect parser rest with
          | Ok app_data => Ok (data :: app_data)
          | Raise e => Raise e
          end
      end
  end.

Definition get_app_data (g_app_list : list entity) (start stop : Z)
    (parser : parser_t) : result (list (gmap string string)) :=
  collect parser (slice g_app_list start stop).

(** The body of the loop of [process_batches] for the index [i]. *)
Definition batch_body (g_app_list : list entity) (parser : parser_t)
    (download_path data_filename index_filename : string)
    (columns : list string) (batches : list Z) (i : nat) : Fs.M unit :=
  match batches !! i, batches !! S i with
  | Some start, Some stop =>
      do app_data <- Fs.lift (get_app_data g_app_list start stop parser) ;
      let rel_path := path_join download_path data_filename in
      perform Fs.append_file rel_path (Csv.rows columns app_data) ;
      let idx_path := path_join download_path index_filename in
      Fs.write_file idx_path (str stop +:+ String nl EmptyString)
  | _, _ => Fs.raise IndexError
  end.

Fixpoint batch_loop (body : nat -> Fs.M unit) (range : list nat) : Fs.M unit :=
  match range with
  | [] => Fs.ret tt
  | i :: rest => perform body i ; batch_loop body rest
  end.

(** The batch boundaries: [np.append(np.arange(begin, end, batchsize), end)],
    after the default of [end] is resolved. *)
Definition resolve_end (app_list : list entity) (end_ : Z) : Z :=
  if end_ =? -1 then Z.of_nat (length app_list) + 1 else end_.

Definition batch_points (begin end_ batchsize : Z) : option (list Z) :=
  option_map (fun a => a ++ [end_]) (arange begin end_ batchsize).

(** [process_batches], stopped after at most [limit] batches when [limit]
    is given (the process is interrupted between two batches). *)
Definition process_batches_upto (limit : option nat)
    (g_app_list : list entity) (parser : parser_t) (app_list : list entity)
    (download_path data_filename index_filename : string)
    (columns : list string) (begin end_ batchsize : Z) : Fs.M unit :=
  let end_ := resolve_end app_list end_ in
  match batch_points begin end_ batchsize with
  | None => Fs.raise ZeroDivisionError
  | Some batches =>
      let range := seq 0 (length batches - 1) in
      let range := match limit with Some k => take k range | None => range end in
      batch_loop
        (batch_body g_app_list parser download_path data_filename
           index_filename columns batches)
        range
  end.

Definition process_batches := process_batches_upto None.

(** The number of batches of a run: the number of elements of
    [arange begin end_ step] for a positive step. *)
Definition batch_count (begin end_ step : Z) : nat :=
  Z.to_nat (ceil_div (end_ - begin) step).

(** What one completed batch does to the files: the rows of [app_data]
    appended to the sink, then the checkpoint overwritten by [stop]. *)
Definition commit (dpath ipath : string) (columns : list string) (stop : Z)
    (app_data : list (gmap string string)) (fs : gmap string string)
    : gmap string string :=
  <[ipath := str stop +:+ String nl EmptyString]>
    (<[dpath := default EmptyString (fs !! dpath) +:+ Csv.rows columns app_data]> fs).

(** A download section of the script (lines 322-342; the same sequence at
    lines 373-390, 445-464 and 529-548): the index is reset, read back,
    the data file prepared for it, and [process_batches] called on the
    module-level [app_list] from that index. *)
Definition download (g_app_list : list entity) (parser : parser_t)
    (download_path data_filename index_filename : string)
    (columns : list string) (end_ batchsize : Z) : Fs.M unit :=
  perform reset_index download_path index_filename ;
  do index <- get_index download_path index_filename ;
  perform prepare_data_file download_path data_filename index columns ;
  process_batches g_app_list parser g_app_list download_path data_filename
    index_filename columns index end_ batchsize.

(** Two results of a parser that the writer cannot tell apart: the same
    exception, or two records with the same values in the declared
    columns. *)
Definition same_on_columns (columns : list string)
    (r1 r2 : result (gmap string string)) : Prop :=
  match r1, r2 with
  | Ok d1, Ok d2 => Forall (fun k => d1 !! k = d2 !! k) columns
  | Raise e1, Raise e2 => e1 = e2
  | _, _ => False
  end.

(** ** The HTTP client *)

Module Http.

(** What [requests.get] hands back: the status code and the decoded JSON
    body ([None] when the body is not JSON, so that [response.json()]
    raises). *)
Record response : Type := Response { status_code : Z; json_body : option string }.

(** [bool(response)] is [response.ok]: false exactly for the statuses on
    which [raise_for_status] raises, 400 to 599. *)
Definition truthy (r : response) : bool :=
  negb ((400 <=? status_code r) && (status_code r <? 600)).

(** One call of [requests.get] either raises or answers. The transport is
    an oracle giving the outcome of the n-th call. *)
Inductive outcome : Type :=
| Raises (e : exn)
| Responds (r : response).

Inductive event : Type :=
| Get (url : string) (parameters : list (string * string))
| Print (s : string)
| Sleep (seconds : Z).

(** How a call ends: with the decoded body or with an exception. *)
Inductive answer : Type :=
| Returned (json_data : string)
| Raised (e : exn).

(** The names bound at module level: the imports of lines 14-27 and the
    functions and variables the module defines. An exception class named
    in an [except] clause is looked up here when an exception arrives (no
    builtin is called SSLError). *)
Definition module_globals : list string :=
  [ "csv"; "dt"; "json"; "os"; "statistics"; "time"; "sys";
    "np"; "pd"; "requests"; "BeautifulSoup";
    "get_request"; "url"; "all_data"; "page"; "parameters"; "response";
    "page_data"; "steam_spy_all"; "app_list"; "output_path";
    "app_list_count"; "get_app_data"; "process_batches"; "reset_index";
    "get_index"; "prepare_data_file"; "parse_steam_request";
    "download_path"; "steam_app_data"; "steam_index"; "steam_columns";
    "index"; "parse_steamspy_request"; "steamspy_data"; "steamspy_index";
    "steamspy_columns"; "parse_steamspy_html"; "steamspy_extended_data";
    "steamspy_extended_index"; "full_data_path"; "index_file_path";
    "steamspy_extended_columns"; "parse_steamcharts_html";
    "steamcharts_data"; "steamcharts_index"; "steamcharts_columns" ]%string.

Definition bound (ns : list string) (x : string) : bool :=
  existsb (String.eqb x) ns.

Definition is_ssl_error (e : exn) : bool :=
  match e with SSLError _ => true | _ => false end.

Definition exn_text (e : exn) : string :=
  match e with SSLError m => m | _ => EmptyString end.

Definition line (s : string) : string := s +:+ String nl EmptyString.
Definition carriage (s : string) : string := String cr s.

(** The countdown of the SSL branch: [range(5, 0, -1)]. *)
Definition countdown : list event :=
  flat_map
    (fun i => [Print (carriage ("Waiting... (" +:+ str i +:+ ")")); Sleep 1])
    [5; 4; 3; 2; 1].

Definition ssl_cooldown (e : exn) : list event :=
  Print (line ("SSL Error: " +:+ exn_text e)) :: countdown
  ++ [Print (line (carriage "Retrying.          "))].

Definition throttle_cooldown : list event :=
  [Print (line "No response, waiting 10 seconds..."); Sleep 10;
   Print (line "Retrying.")].

(** [get_request(url, parameters)] in a module whose global names are
    [ns]; [n] counts the calls of [requests.get] made so far. The function
    retries by calling itself (lines 67 and 76), so each retry is one more
    nested activation: [frames] is the number of activations of
    [get_request] that the interpreter's recursion limit still allows
    (about 1000 by default, less the depth of the caller), and a call
    that finds none left raises RecursionError. A recursion limit reached
    inside [requests.get] is an exception of the transport. *)
Fixpoint get_request (frames : nat) (ns : list string) (net : nat -> outcome)
    (n : nat) (url : string) (parameters : list (string * string))
    : list event * answer :=
  match frames with
  | O => ([], Raised RecursionError)
  | S fuel' =>
      match net n with
      | Raises e =>
          (* except SSLError as s: *)
          if bound ns "SSLError" then
            if is_ssl_error e then
              let rest := get_request fuel' ns net (S n) url parameters in
              (Get url parameters :: ssl_cooldown e ++ fst rest, snd rest)
            else ([Get url parameters], Raised e)
          else ([Get url parameters], Raised (NameError "SSLError"))
      | Responds response =>
          if truthy response then
            match json_body response with
            | Some json_data => ([Get url parameters], Returned json_data)
            | None => ([Get url parameters], Raised JSONDecodeError)
            end
          else
            let rest := get_request fuel' ns net (S n) url parameters in
            (Get url parameters :: throttle_cooldown ++ fst rest, snd rest)
      end
  end.

End Http.

(** ** A small collection used to run the model *)

Module Demo.

Definition apps : list entity :=
  [Entity 10 "A"; Entity 20 "B"; Entity 30 "C"; Entity 40 "D"; Entity 50 "E"].

Definition other_apps : list entity :=
  [Entity 7 "V"; Entity 8 "W"; Entity 9 "X"; Entity 11 "Y"; Entity 12 "Z"].

Definition columns : list string := ["appid"; "name"; "value"].

Definition stub : parser_t := fun appid name =>
  Ok (<["appid" := str appid]> (<["name" := name]>
       (<["value" := str (appid * 10)]> ∅))).

(** A parser that raises on one application. *)
Definition failing_on (bad : Z) : parser_t := fun appid name =>
  if appid =? bad then Raise (ParserError "no data") else stub appid name.

Definition dir : string := "download".
Definition sink : string := "steam_app_data.csv".
Definition index_file : string := "steam_index.txt".

(** The files as the script prepares them: index reset, header written. *)
Definition fresh : gmap string string :=
  fst (prepare_data_file dir sink 0 columns (fst (reset_index dir index_file ∅))).

(** The files after the whole collection, after its first batch, and
    after a collection called with the default end. *)
Definition final : gmap string string :=
  fst (process_batches apps stub apps dir sink index_file columns 0 5 2 fresh).

Definition after_one : gmap string string :=
  fst (process_batches_upto (Some 1%nat) apps (failing_on 30) apps
         dir sink index_file columns 0 5 2 fresh).

Definition final_default : gmap string string :=
  fst (process_batches apps stub apps dir sink index_file columns 0 (-1) 2 fresh).

Definition url : string := "https://steamspy.com/api.php".

(** Transports: one that answers 404 once and then 200, one whose TLS
    negotiation fails on every call. *)
Definition not_found_then_ok : nat -> Http.outcome := fun n =>
  match n with
  | O => Http.Responds (Http.Response 404 None)
  | _ => Http.Responds (Http.Response 200 (Some "{}"))
  end.

Definition tls_broken : nat -> Http.outcome := fun _ =>
  Http.Raises (SSLError "handshake failure").

(** A parser whose records carry a key that is no declared column. *)
Definition verbose_stub : parser_t := fun appid name =>
  match stub appid name with
  | Ok d => Ok (<["detailed_description" := "text, with a comma"]> d)
  | Raise e => Raise e
  end.

(** Files that hold something already: an older sink, an older index and
    a file of no concern to the collection. *)
Definition used : gmap string string :=
  <[path_join dir sink := "appid,name,value"]>
    (<[path_join dir index_file := "40"]> (<["notes.txt" := "keep"]> ∅)).


Definition refused : nat -> Http.outcome := fun _ =>
  Http.Raises (ConnectionError "connection refused").

End Demo.

(** ** More files of the demonstration collection *)

Module Sample.

(** The files after the download section ran on files already in use,
    stopping at the second application. *)
Definition downloaded : gmap string string :=
  fst (download Demo.apps Demo.stub Demo.dir Demo.sink Demo.index_file
         Demo.columns 2 5 Demo.used).

(** The trace of a request answered 404, then 200. *)
Definition retried_once : list Http.event :=
  [Http.Get Demo.url [];
   Http.Print (Http.line "No response, waiting 10 seconds...");
   Http.Sleep 10;
   Http.Print (Http.line "Retrying.");
   Http.Get Demo.url []].

End Sample.

(** ** Facts about the Python primitives *)

Module PyFacts.
Import Py.

Lemma chars_app (s t : string) : chars (s +:+ t) = chars s ++ chars t.
Proof. induction s as [|c s IH]; simpl; [reflexivity | now rewrite <- IH]. Qed.

Lemma text_chars (s : string) : text (chars s) = s.
Proof. apply string_of_list_ascii_of_string. Qed.

Lemma uint_digits (d : Decimal.uint) :
  Forall (fun c => is_digit c = true) (chars (NilEmpty.string_of_uint d)).
Proof. induction d; simpl; constructor; auto. Qed.

Lemma nilzero_digits (d : Decimal.uint) :
  Forall (fun c => is_digit c = true) (chars (NilZero.string_of_uint d))
  /\ chars (NilZero.string_of_uint d) <> [].
Proof.
  destruct d; simpl; split; try discriminate;
    repeat constructor; apply uint_digits.
Qed.

Lemma digit_not_special (c : ascii) :
  is_digit c = true ->
  is_space c = false /\ is_underscore c = false
  /\ Ascii.eqb c "-"%char = false /\ Ascii.eqb c "+"%char = false
  /\ Ascii.eqb c nl = false /\ Ascii.eqb c cr = false.
Proof.
  destruct c as [[] [] [] [] [] [] [] []]; vm_compute; intuition discriminate.
Qed.

Lemma digits_ok_all (l : list ascii) (prev : bool) :
  Forall (fun c => is_digit c = true) l ->
  digits_ok prev l = match l with [] => prev | _ => true end.
Proof.
  intros H; revert prev. induction H as [|c l Hc _ IH]; intros prev; simpl.
  - reflexivity.
  - rewrite Hc, IH. now destruct l.
Qed.

Lemma filter_digits (l : list ascii) :
  Forall (fun c => is_digit c = true) l ->
  filter (fun c => negb (is_underscore c)) l = l.
Proof.
  induction 1 as [|c l Hc _ IH]; [reflexivity|].
  apply digit_not_special in Hc as (_ & Hu & _).
  rewrite filter_cons, IH. unfold negb. now rewrite Hu.
Qed.

Lemma digits_value_uint (d : Decimal.uint) :
  digits_value (chars (NilZero.string_of_uint d)) = Some (Z.of_uint d).
Proof.
  destruct (nilzero_digits d) as [Hd Hne].
  unfold digits_value.
  rewrite digits_ok_all by assumption.
  destruct (chars (NilZero.string_of_uint d)) eqn:E; [congruence|].
  rewrite <- E, filter_digits, text_chars by (rewrite E; assumption).
  destruct d; try reflexivity;
    unfold NilZero.string_of_uint; now rewrite NilEmpty.usu.
Qed.

Lemma drop_spaces_head (c : ascii) (l : list ascii) :
  is_space c = false -> drop_spaces (c :: l) = c :: l.
Proof. intros H; simpl; now rewrite H. Qed.

(** Stripping a text without white space that is followed by a line feed
    gives the text back. *)
Lemma strip_line (l : list ascii) :
  Forall (fun c => is_space c = false) l -> strip (l ++ [nl]) = l.
Proof.
  intros H. unfold strip.
  destruct l as [|c l]; [reflexivity|].
  inversion H as [|? ? Hc Hl]; subst.
  rewrite <- app_comm_cons, drop_spaces_head by assumption.
  rewrite app_comm_cons, rev_unit.
  change (drop_spaces (nl :: rev (c :: l))) with (drop_spaces (rev (c :: l))).
  destruct (rev (c :: l)) as [|x r] eqn:E.
  - apply (f_equal (@length _)) in E. rewrite length_rev in E. discriminate.
  - assert (Hx : is_space x = false).
    { assert (Hin : In x (rev (c :: l))) by (rewrite E; now left).
      apply in_rev in Hin. rewrite Forall_forall in H.
      apply H. now apply list_elem_of_In. }
    rewrite drop_spaces_head by assumption.
    rewrite <- E. apply rev_involutive.
  Qed.

Lemma readline_line (s : string) :
  Forall (fun c => Ascii.eqb c nl = false /\ Ascii.eqb c cr = false) (chars s) ->
  readline (s +:+ String nl EmptyString) = s +:+ String nl EmptyString.
Proof.
  induction s as [|c s IH]; simpl; intros H.
  - reflexivity.
  - inversion H as [|? ? [H1 H2] Hs]; subst.
    rewrite H1, H2. simpl.
    change (String c s +:+ String nl EmptyString)
      with (String c (s +:+ String nl EmptyString)).
    f_equal. now apply IH.
Qed.

(** The characters of [str n]: an optional minus sign, then digits. *)
Lemma str_shape (n : Z) :
  exists d, Z.of_uint d = Z.abs n /\
    chars (str n) =
      (if n <? 0 then ["-"%char] else []) ++ chars (NilZero.string_of_uint d).
Proof.
  unfold str. pose proof (DecimalZ.of_to n) as H.
  destruct (Z.to_int n) as [d|d] eqn:E; simpl in H.
  - exists d. assert (0 <= n).
    { rewrite <- H. destruct d; simpl; try apply N2Z.is_nonneg; lia. }
    split; [lia|]. destruct (Z.ltb_spec n 0); [lia|reflexivity].
  - destruct n as [|p|p]; simpl in E; try discriminate.
    exists d. split; [lia|reflexivity].
Qed.

(** Reading back a line written by [print(n, file=f)]. *)
Theorem int_readline_str (n : Z) :
  int (readline (str n +:+ String nl EmptyString)) = Some n.
Proof.
  destruct (str_shape n) as (d & Hd & Hs).
  destruct (nilzero_digits d) as [Hdig Hne].
  assert (Hall : Forall (fun c => is_digit c = true \/ c = "-"%char) (chars (str n))).
  { rewrite Hs. apply Forall_app. split.
    - destruct (n <? 0); constructor; [now right | constructor].
    - eapply Forall_impl; [exact Hdig|]. now left. }
  rewrite readline_line.
  2:{ eapply Forall_impl; [exact Hall|]. intros c [Hc| ->]; [|now vm_compute].
      now apply digit_not_special in Hc. }
  unfold int. rewrite chars_app. simpl (chars (String nl EmptyString)).
  rewrite strip_line.
  2:{ eapply Forall_impl; [exact Hall|]. intros c [Hc| ->]; [|now vm_compute].
      now apply digit_not_special in Hc. }
  rewrite Hs. pose proof (digits_value_uint d) as Hv.
  destruct (Z.ltb_spec n 0).
  - simpl. rewrite Hv. simpl. f_equal. lia.
  - simpl. destruct (chars (NilZero.string_of_uint d)) as [|c r] eqn:E;
      [congruence|].
    inversion Hdig as [|? ? Hc _]; subst.
    apply digit_not_special in Hc as (_ & _ & Hm & Hp & _).
    rewrite Hm, Hp, Hv. f_equal. lia.
Qed.

End PyFacts.

(** ** Batch boundaries *)

Module Batches.
Import Py.

Lemma ceil_div_bounds (d s : Z) :
  0 < s -> (ceil_div d s - 1) * s < d <= ceil_div d s * s.
Proof.
  intros Hs. unfold ceil_div.
  pose proof (Z.div_mod (- d) s ltac:(lia)) as E.
  pose proof (Z.mod_pos_bound (- d) s Hs) as B.
  nia.
Qed.

Lemma ceil_div_shift (d s k : Z) :
  0 < s -> ceil_div (d - k * s) s = ceil_div d s - k.
Proof.
  intros Hs. unfold ceil_div.
  replace (- (d - k * s)) with (- d + k * s) by ring.
  rewrite Z.div_add by lia. ring.
Qed.

Lemma count_lt (begin end_ step : Z) (i : nat) :
  0 < step ->
  (i < batch_count begin end_ step)%nat <-> begin + Z.of_nat i * step < end_.
Proof.
  intros Hs. unfold batch_count.
  pose proof (ceil_div_bounds (end_ - begin) step Hs) as B.
  split; intros H.
  - assert (Z.of_nat i + 1 <= ceil_div (end_ - begin) step) by lia. nia.
  - assert (Z.of_nat i < ceil_div (end_ - begin) step) by nia. lia.
Qed.

Lemma count_zero (begin end_ step : Z) :
  0 < step -> batch_count begin end_ step = 0%nat <-> end_ <= begin.
Proof.
  intros Hs. pose proof (count_lt begin end_ step 0 Hs) as H.
  simpl in H. rewrite Z.add_0_r in H. split; intros E.
  - destruct (Z.le_gt_cases end_ begin) as [|G]; [assumption|].
    apply H in G. lia.
  - destruct (batch_count begin end_ step); [reflexivity|].
    assert (begin < end_) by (apply H; lia). lia.
Qed.

(** The boundaries, position by position. *)
Lemma batch_points_lookup (begin end_ step : Z) (batches : list Z) (i : nat) :
  0 < step ->
  batch_points begin end_ step = Some batches ->
  batches !! i =
    if (i <? batch_count begin end_ step)%nat then Some (begin + Z.of_nat i * step)
    else if (i =? batch_count begin end_ step)%nat then Some end_
    else None.
Proof.
  intros Hs. unfold batch_points, arange.
  destruct (Z.eqb_spec step 0) as [|_]; [lia|]. simpl. intros [= <-].
  fold (batch_count begin end_ step). set (n := batch_count begin end_ step).
  change (map ?f ?l) with (f <$> l).
  destruct (Nat.ltb_spec i n) as [Hi|Hi].
  - rewrite lookup_app_l by (rewrite length_fmap, length_seq; lia).
    rewrite list_lookup_fmap, lookup_seq_lt by lia. reflexivity.
  - rewrite lookup_app_r by (rewrite length_fmap, length_seq; lia).
    rewrite length_fmap, length_seq.
    destruct (Nat.eqb_spec i n) as [->|Hne].
    + now rewrite Nat.sub_diag.
    + destruct (i - n)%nat as [|m] eqn:E; [lia|reflexivity].
Qed.

Lemma batch_points_length (begin end_ step : Z) (batches : list Z) :
  0 < step ->
  batch_points begin end_ step = Some batches ->
  length batches = S (batch_count begin end_ step).
Proof.
  intros Hs. unfold batch_points, arange.
  destruct (Z.eqb_spec step 0) as [|_]; [lia|]. simpl. intros [= <-].
  rewrite length_app, length_map, length_seq. simpl.
  fold (batch_count begin end_ step). lia.
Qed.

Lemma batch_points_defined (begin end_ step : Z) :
  0 < step -> exists batches, batch_points begin end_ step = Some batches.
Proof.
  intros Hs. unfold batch_points, arange.
  destruct (Z.eqb_spec step 0) as [|_]; [lia|]. simpl. eauto.
Qed.

(** Every boundary lies between [begin] and [end_] when there is a batch,
    and the boundaries increase strictly. *)
Lemma batch_points_increasing (begin end_ step : Z) (batches : list Z)
    (i j : nat) (x y : Z) :
  0 < step ->
  batch_points begin end_ step = Some batches ->
  (i < j)%nat -> batches !! i = Some x -> batches !! j = Some y -> x < y.
Proof.
  intros Hs Hb Hij.
  rewrite (batch_points_lookup _ _ _ _ i Hs Hb),
          (batch_points_lookup _ _ _ _ j Hs Hb).
  destruct (Nat.ltb_spec i (batch_count begin end_ step)) as [Hi|Hi];
  destruct (Nat.ltb_spec j (batch_count begin end_ step)) as [Hj|Hj];
  destruct (Nat.eqb_spec i (batch_count begin end_ step));
  destruct (Nat.eqb_spec j (batch_count begin end_ step));
    try lia; try discriminate; intros [= <-] [= <-].
  - nia.
  - now apply count_lt.
Qed.

Lemma batch_points_first (begin end_ step : Z) (batches : list Z) :
  0 < step -> begin <= end_ ->
  batch_points begin end_ step = Some batches ->
  batches !! 0%nat = Some begin.
Proof.
  intros Hs Hle Hb. rewrite (batch_points_lookup _ _ _ _ 0 Hs Hb).
  destruct (Nat.ltb_spec 0 (batch_count begin end_ step)) as [H|H].
  - f_equal. simpl. lia.
  - assert (E : batch_count begin end_ step = 0%nat) by lia.
    rewrite E. simpl. f_equal.
    apply count_zero in E; [lia|assumption].
Qed.

Lemma batch_points_last (begin end_ step : Z) (batches : list Z) :
  0 < step ->
  batch_points begin end_ step = Some batches ->
  batches !! batch_count begin end_ step = Some end_.
Proof.
  intros Hs Hb. rewrite (batch_points_lookup _ _ _ _ _ Hs Hb).
  rewrite Nat.ltb_irrefl, Nat.eqb_refl. reflexivity.
Qed.

Lemma batch_points_ge (begin end_ step : Z) (batches : list Z) (i : nat) (x : Z) :
  0 < step -> begin <= end_ ->
  batch_points begin end_ step = Some batches ->
  batches !! i = Some x -> begin <= x <= end_.
Proof.
  intros Hs Hle Hb.
  rewrite (batch_points_lookup _ _ _ _ i Hs Hb).
  destruct (Nat.ltb_spec i (batch_count begin end_ step)) as [Hi|Hi].
  - intros [= <-]. apply count_lt in Hi; [nia|assumption].
  - destruct (Nat.eqb_spec i (batch_count begin end_ step)); [|discriminate].
    intros [= <-]. lia.
Qed.

(** Restarting from the k-th boundary yields the remaining boundaries. *)
Lemma batch_points_resume (begin end_ step : Z) (batches : list Z)
    (k : nat) (c : Z) :
  0 < step ->
  batch_points begin end_ step = Some batches ->
  batches !! k = Some c ->
  batch_points c end_ step = Some (drop k batches)
  /\ batch_count c end_ step = (batch_count begin end_ step - k)%nat.
Proof.
  intros Hs Hb Hk.
  destruct (batch_points_defined c end_ step Hs) as [rest Hr].
  assert (Hc : batch_count c end_ step = (batch_count begin end_ step - k)%nat).
  { rewrite (batch_points_lookup _ _ _ _ k Hs Hb) in Hk.
    destruct (Nat.ltb_spec k (batch_count begin end_ step)) as [Hlt|Hge].
    - injection Hk as <-. unfold batch_count.
      replace (end_ - (begin + Z.of_nat k * step))
        with (end_ - begin - Z.of_nat k * step) by ring.
      rewrite ceil_div_shift by assumption. lia.
    - destruct (Nat.eqb_spec k (batch_count begin end_ step)); [|discriminate].
      injection Hk as <-. subst k. rewrite Nat.sub_diag.
      now apply count_zero. }
  split; [|exact Hc]. rewrite Hr. f_equal. apply list_eq. intros i.
  rewrite lookup_drop, (batch_points_lookup _ _ _ _ i Hs Hr),
          (batch_points_lookup _ _ _ _ (k + i) Hs Hb), Hc.
  rewrite (batch_points_lookup _ _ _ _ k Hs Hb) in Hk.
  destruct (Nat.ltb_spec k (batch_count begin end_ step)) as [Hlt|Hge].
  - injection Hk as <-.
    destruct (Nat.ltb_spec i (batch_count begin end_ step - k));
    destruct (Nat.ltb_spec (k + i) (batch_count begin end_ step)); try lia.
    + f_equal. lia.
    + destruct (Nat.eqb_spec i (batch_count begin end_ step - k));
      destruct (Nat.eqb_spec (k + i) (batch_count begin end_ step));
        try lia; reflexivity.
  - destruct (Nat.eqb_spec k (batch_count begin end_ step)); [|discriminate].
    injection Hk as <-. subst k.
    destruct (Nat.ltb_spec i (batch_count begin end_ step - batch_count begin end_ step));
    destruct (Nat.ltb_spec (batch_count begin end_ step + i) (batch_count begin end_ step));
      try lia.
    destruct (Nat.eqb_spec i (batch_count begin end_ step - batch_count begin end_ step));
    destruct (Nat.eqb_spec (batch_count begin end_ step + i) (batch_count begin end_ step));
      try lia; reflexivity.
Qed.

(** Slices of consecutive batches add up. *)
Lemma slice_nil {A} (l : list A) (a : Z) : slice l a a = [].
Proof. unfold slice. now rewrite Z.sub_diag. Qed.

Lemma slice_app {A} (l : list A) (a b c : Z) :
  0 <= a -> a <= b -> b <= c ->
  slice l a b ++ slice l b c = slice l a c.
Proof.
  intros Ha Hab Hbc. unfold slice, clamp_index.
  set (len := Z.of_nat (length l)).
  destruct (Z.ltb_spec a 0), (Z.ltb_spec b 0), (Z.ltb_spec c 0); try lia.
  replace (Z.to_nat (Z.min b len))
    with (Z.to_nat (Z.min a len) + Z.to_nat (Z.min b len - Z.min a len))%nat by lia.
  rewrite <- drop_drop, take_take_drop. f_equal. lia.
Qed.

Lemma slice_length {A} (l : list A) (a b : Z) :
  0 <= a -> a <= b -> b <= Z.of_nat (length l) ->
  length (slice l a b) = Z.to_nat (b - a).
Proof.
  intros Ha Hab Hb. unfold slice, clamp_index.
  destruct (Z.ltb_spec a 0), (Z.ltb_spec b 0); try lia.
  rewrite length_take, length_drop. lia.
Qed.


End Batches.

(** ** The orchestrator loop *)

Module Loop.
Import Py.

Lemma append_cons (c : ascii) (s t : string) :
  String c s +:+ t = String c (s +:+ t).
Proof. reflexivity. Qed.

Lemma append_nil_r (s : string) : s +:+ EmptyString = s.
Proof.
  induction s as [|c s IH]; [reflexivity|]. now rewrite append_cons, IH.
Qed.

Lemma append_assoc (s t u : string) : (s +:+ t) +:+ u = s +:+ (t +:+ u).
Proof.
  induction s as [|c s IH]; [reflexivity|]. now rewrite !append_cons, IH.
Qed.

Lemma rows_app (columns : list string) (d1 d2 : list (gmap string string)) :
  Csv.rows columns (d1 ++ d2) = Csv.rows columns d1 +:+ Csv.rows columns d2.
Proof.
  unfold Csv.rows. induction d1 as [|d d1 IH]; [reflexivity|].
  rewrite <- app_comm_cons. cbn [map foldr].
  now rewrite IH, append_assoc.
Qed.

Lemma collect_app (parser : parser_t) (l1 l2 : list entity) :
  collect parser (l1 ++ l2) =
    match collect parser l1 with
    | Ok d1 =>
        match collect parser l2 with
        | Ok d2 => Ok (d1 ++ d2)
        | Raise e => Raise e
        end
    | Raise e => Raise e
    end.
Proof.
  induction l1 as [|row l1 IH]; simpl.
  - now destruct (collect parser l2).
  - destruct (parser (appid row) (name row)); [|reflexivity].
    rewrite IH. destruct (collect parser l1); [|reflexivity].
    now destruct (collect parser l2).
Qed.

(** A successful collection holds the parser's record of each row, in
    order. *)
Lemma collect_ok (parser : parser_t) (rows : list entity)
    (app_data : list (gmap string string)) :
  collect parser rows = Ok app_data <->
  Forall2 (fun row data => parser (appid row) (name row) = Ok data) rows app_data.
Proof.
  revert app_data. induction rows as [|row rows IH]; intros app_data; simpl.
  - split.
    + intros [= <-]. constructor.
    + intros H. inversion H. reflexivity.
  - destruct (parser (appid row) (name row)) as [data|e] eqn:E.
    + destruct (collect parser rows) as [ds|e] eqn:C.
      * split.
        -- intros [= <-]. constructor; [assumption|]. now apply IH.
        -- intros H. inversion H as [|? ? ? ? Hp Hr]; subst.
           apply IH in Hr. congruence.
      * split; [discriminate|].
        intros H. inversion H as [|? ? ? ? Hp Hr]; subst.
        apply IH in Hr. discriminate.
    + split; [discriminate|].
      intros H. inversion H as [|? ? ? ? Hp Hr]; subst. congruence.
Qed.

(** A collection fails as soon as the parser raises on one of the rows,
    and what it raises is what the parser raised on a row. *)
Lemma collect_raises (parser : parser_t) (rows : list entity) (row : entity)
    (e : exn) :
  row ∈ rows -> parser (appid row) (name row) = Raise e ->
  exists e' row', row' ∈ rows /\ parser (appid row') (name row') = Raise e'
    /\ collect parser rows = Raise e'.
Proof.
  induction rows as [|r rows IH]; intros Hin Hp.
  - inversion Hin.
  - simpl. destruct (parser (appid r) (name r)) as [data|e0] eqn:E.
    + apply elem_of_cons in Hin as [->|Hin]; [congruence|].
      destruct (IH Hin Hp) as (e' & row' & Hr & Hp' & Hc).
      exists e', row'. rewrite Hc. split; [now right|]. split; [assumption|reflexivity].
    + exists e0, r. split; [now left|]. split; [assumption|reflexivity].
Qed.

Lemma collect_total (parser : parser_t) (rows : list entity) :
  (forall row, row ∈ rows -> is_ok (parser (appid row) (name row)) = true) ->
  exists app_data, collect parser rows = Ok app_data.
Proof.
  induction rows as [|r rows IH]; intros H; simpl; [eauto|].
  pose proof (H r ltac:(now left)) as Hr.
  destruct (parser (appid r) (name r)); [|discriminate].
  destruct IH as [ds ->]; [|eauto].
  intros row Hin. apply H. now right.
Qed.

Lemma batch_loop_app (body : nat -> Fs.M unit) (l1 l2 : list nat)
    (fs : gmap string string) :
  batch_loop body (l1 ++ l2) fs =
    match batch_loop body l1 fs with
    | (fs', Ok _) => batch_loop body l2 fs'
    | (fs', Raise e) => (fs', Raise e)
    end.
Proof.
  revert fs. induction l1 as [|i l1 IH]; intros fs; simpl; [reflexivity|].
  unfold Fs.bind. destruct (body i fs) as [fs1 [[]|e]]; [apply IH|reflexivity].
Qed.

Lemma batch_loop_ext (f g : nat -> Fs.M unit) (l : list nat) :
  (forall i, f i = g i) -> batch_loop f l = batch_loop g l.
Proof. intros H. induction l as [|i l IH]; simpl; [reflexivity|]. now rewrite H, IH. Qed.

Lemma batch_loop_shift (body : nat -> Fs.M unit) (k j m : nat) :
  batch_loop (fun i => body (k + i)%nat) (seq j m) = batch_loop body (seq (k + j) m).
Proof.
  revert j. induction m as [|m IH]; intros j; simpl; [reflexivity|].
  now rewrite IH, Nat.add_succ_r.
Qed.

Section Body.
Variables (g_app_list : list entity) (parser : parser_t).
Variables (dp dfn ifn : string) (columns : list string).

Local Abbreviation body := (batch_body g_app_list parser dp dfn ifn columns).
Local Abbreviation dpath := (path_join dp dfn).
Local Abbreviation ipath := (path_join dp ifn).

Lemma batch_body_unfold (batches : list Z) (i : nat) (fs : gmap string string) :
  body batches i fs =
    match batches !! i, batches !! S i with
    | Some start, Some stop =>
        match get_app_data g_app_list start stop parser with
        | Ok app_data => (commit dpath ipath columns stop app_data fs, Ok tt)
        | Raise e => (fs, Raise e)
        end
    | _, _ => (fs, Raise IndexError)
    end.
Proof.
  unfold batch_body.
  destruct (batches !! i); [|reflexivity].
  destruct (batches !! S i); [|reflexivity].
  unfold Fs.bind, Fs.lift.
  destruct (get_app_data g_app_list z z0 parser); reflexivity.
Qed.

Lemma batch_body_drop (batches : list Z) (k i : nat) :
  body (drop k batches) i = body batches (k + i)%nat.
Proof.
  unfold batch_body. now rewrite !lookup_drop, Nat.add_succ_r.
Qed.

Lemma batch_loop_drop (batches : list Z) (k m : nat) :
  batch_loop (body (drop k batches)) (seq 0 m)
  = batch_loop (body batches) (seq k m).
Proof.
  rewrite (batch_loop_ext _ (fun i => body batches (k + i)%nat))
    by (intros i; apply batch_body_drop).
  now rewrite batch_loop_shift, Nat.add_0_r.
Qed.

(** The checkpoint after a run of completed batches is the stop of the
    last one. *)
Lemma loop_last_checkpoint (batches : list Z) (k m : nat) (stop : Z)
    (fs fs' : gmap string string) :
  batch_loop (body batches) (seq k (S m)) fs = (fs', Ok tt) ->
  batches !! S (k + m) = Some stop ->
  fs' !! ipath = Some (str stop +:+ String nl EmptyString).
Proof.
  rewrite seq_S, batch_loop_app.
  destruct (batch_loop (body batches) (seq k m) fs) as [fs0 [[]|e]];
    [|discriminate].
  simpl. unfold Fs.bind. rewrite batch_body_unfold.
  intros H Hs. rewrite Hs in H.
  destruct (batches !! (k + m)%nat); [|discriminate].
  destruct (get_app_data g_app_list z stop parser); [|discriminate].
  injection H as <-. unfold commit. apply lookup_insert_eq.
Qed.

(** The sink after a run of completed batches: the records of the rows
    between the first start and the last stop were appended, in order. *)
Lemma loop_sink (batches : list Z) (m k : nat) (a c : Z)
    (fs fs' : gmap string string) :
  dpath <> ipath ->
  (forall i x, batches !! i = Some x -> 0 <= x) ->
  (forall i j x y, (i <= j)%nat ->
     batches !! i = Some x -> batches !! j = Some y -> x <= y) ->
  batches !! k = Some a -> batches !! (k + m)%nat = Some c ->
  batch_loop (body batches) (seq k m) fs = (fs', Ok tt) ->
  exists app_data,
    get_app_data g_app_list a c parser = Ok app_data
    /\ default EmptyString (fs' !! dpath)
       = default EmptyString (fs !! dpath) +:+ Csv.rows columns app_data
    /\ ((0 < m)%nat -> is_Some (fs' !! dpath)).
Proof.
  intros Hne Hpos Hmono. revert k a fs.
  induction m as [|m IH]; intros k a fs Ha Hc.
  - rewrite Nat.add_0_r in Hc. assert (a = c) by congruence. subst c.
    simpl. intros [= <-]. exists [].
    unfold get_app_data. rewrite Batches.slice_nil. simpl.
    split; [reflexivity|]. split; [now rewrite append_nil_r|lia].
  - simpl. unfold Fs.bind. rewrite batch_body_unfold, Ha.
    destruct (batches !! S k) as [x|] eqn:Hx; [|discriminate].
    destruct (get_app_data g_app_list a x parser) as [d1|e] eqn:Hd;
      [|discriminate].
    intros Hloop.
    assert (Hc' : batches !! (S k + m)%nat = Some c)
      by (replace (S k + m)%nat with (k + S m)%nat by lia; exact Hc).
    destruct (IH (S k) x _ Hx Hc' Hloop) as (d2 & Hd2 & Hsink & Hsome).
    exists (d1 ++ d2).
    assert (Hax : a <= x) by (apply (Hmono k (S k)); [lia|assumption..]).
    assert (Hxc : x <= c) by (apply (Hmono (S k) (S k + m)%nat); [lia|assumption..]).
    assert (H0 : 0 <= a) by (eapply Hpos; eassumption).
    unfold get_app_data in *.
    rewrite <- (Batches.slice_app g_app_list a x c) by assumption.
    rewrite collect_app, Hd, Hd2. split; [reflexivity|].
    assert (Hfs1 : commit dpath ipath columns x d1 fs !! dpath
              = Some (default EmptyString (fs !! dpath) +:+ Csv.rows columns d1)).
    { unfold commit. rewrite lookup_insert_ne by congruence.
      apply lookup_insert_eq. }
    rewrite Hfs1 in Hsink. simpl in Hsink.
    split; [now rewrite Hsink, rows_app, append_assoc|].
    intros _. destruct m as [|m'].
    + simpl in Hloop. injection Hloop as <-. rewrite Hfs1. eauto.
    + apply Hsome. lia.
Qed.

End Body.

End Loop.

(** ** Runs of [process_batches] *)

Module Run.
Import Py.

Lemma get_index_persisted (dp ifn : string) (n : Z) (fs : gmap string string) :
  fs !! path_join dp ifn = Some (str n +:+ String nl EmptyString) ->
  get_index dp ifn fs = (fs, Ok n).
Proof.
  intros H. unfold get_index, Fs.catch_file_not_found, Fs.bind, Fs.read_first_line.
  rewrite H, PyFacts.int_readline_str. reflexivity.
Qed.

Lemma resolve_end_explicit (app_list : list entity) (end_ : Z) :
  0 <= end_ -> resolve_end app_list end_ = end_.
Proof. intros H. unfold resolve_end. destruct (Z.eqb_spec end_ (-1)); [lia|reflexivity]. Qed.

Lemma resolve_end_default (app_list : list entity) :
  resolve_end app_list (-1) = Z.of_nat (length app_list) + 1.
Proof. reflexivity. Qed.

Section Unfold.
Variables (g_app_list : list entity) (parser : parser_t) (app_list : list entity).
Variables (dp dfn ifn : string) (columns : list string).
Variables (begin end_ batchsize : Z) (batches : list Z).
Hypothesis Hsize : 1 <= batchsize.
Hypothesis Hpoints :
  batch_points begin (resolve_end app_list end_) batchsize = Some batches.

Local Abbreviation body := (batch_body g_app_list parser dp dfn ifn columns batches).
Local Abbreviation total := (batch_count begin (resolve_end app_list end_) batchsize).

Lemma process_batches_loop (fs : gmap string string) :
  process_batches g_app_list parser app_list dp dfn ifn columns
    begin end_ batchsize fs
  = batch_loop body (seq 0 total) fs.
Proof.
  assert (Hpos : 0 < batchsize) by lia.
  unfold process_batches, process_batches_upto. cbv zeta. rewrite Hpoints.
  rewrite (Batches.batch_points_length _ _ _ _ Hpos Hpoints).
  now rewrite Nat.sub_succ, Nat.sub_0_r.
Qed.

Lemma process_batches_upto_loop (k : nat) (fs : gmap string string) :
  process_batches_upto (Some k) g_app_list parser app_list dp dfn ifn columns
    begin end_ batchsize fs
  = batch_loop body (seq 0 (k `min` total)) fs.
Proof.
  assert (Hpos : 0 < batchsize) by lia.
  unfold process_batches_upto. cbv zeta. rewrite Hpoints.
  rewrite (Batches.batch_points_length _ _ _ _ Hpos Hpoints).
  now rewrite Nat.sub_succ, Nat.sub_0_r, take_seq.
Qed.

Lemma lookup_within (k : nat) (x : Z) :
  batches !! k = Some x -> (k <= total)%nat.
Proof.
  assert (Hpos : 0 < batchsize) by lia.
  intros H. apply lookup_lt_Some in H.
  rewrite (Batches.batch_points_length _ _ _ _ Hpos Hpoints) in H. lia.
Qed.

(** A completed run is a completed prefix followed by the rest. *)
Lemma split_run (k : nat) (fs fs1 : gmap string string) :
  (k <= total)%nat ->
  batch_loop body (seq 0 total) fs = (fs1, Ok tt) ->
  exists fsk,
    batch_loop body (seq 0 k) fs = (fsk, Ok tt)
    /\ batch_loop body (seq k (total - k)) fsk = (fs1, Ok tt).
Proof.
  intros Hk. replace total with (k + (total - k))%nat at 1 by lia.
  rewrite seq_app, Loop.batch_loop_app.
  destruct (batch_loop body (seq 0 k) fs) as [fsk [[]|e]]; [|discriminate].
  intros H. exists fsk. split; [reflexivity|exact H].
Qed.

End Unfold.

(** After a completed run that had at least one batch, the checkpoint
    file holds the resolved end. *)
Lemma run_checkpoint (g_app_list : list entity) (parser : parser_t)
    (app_list : list entity) (dp dfn ifn : string) (columns : list string)
    (begin end_ batchsize : Z) (fs fs' : gmap string string) :
  1 <= batchsize -> begin < resolve_end app_list end_ ->
  process_batches g_app_list parser app_list dp dfn ifn columns
    begin end_ batchsize fs = (fs', Ok tt) ->
  fs' !! path_join dp ifn
  = Some (str (resolve_end app_list end_) +:+ String nl EmptyString).
Proof.
  intros Hs Hlt. assert (Hpos : 0 < batchsize) by lia.
  destruct (Batches.batch_points_defined begin (resolve_end app_list end_)
              batchsize Hpos) as [batches Hb].
  rewrite (process_batches_loop _ _ _ _ _ _ _ _ _ _ _ Hs Hb).
  pose proof (Batches.batch_points_last _ _ _ _ Hpos Hb) as Hlast.
  destruct (batch_count begin (resolve_end app_list end_) batchsize)
    as [|m] eqn:E.
  - apply Batches.count_zero in E; lia.
  - intros Hrun. eapply Loop.loop_last_checkpoint; [exact Hrun|exact Hlast].
Qed.

(** After a completed run over non-negative indices, the sink holds what
    it held before followed by the records of the rows from [begin] to the
    resolved end, in order. *)
Lemma run_sink (g_app_list : list entity) (parser : parser_t)
    (app_list : list entity) (dp dfn ifn : string) (columns : list string)
    (begin end_ batchsize : Z) (fs fs' : gmap string string) :
  1 <= batchsize -> 0 <= begin -> begin < resolve_end app_list end_ ->
  path_join dp dfn <> path_join dp ifn ->
  process_batches g_app_list parser app_list dp dfn ifn columns
    begin end_ batchsize fs = (fs', Ok tt) ->
  exists app_data,
    Forall2 (fun row data => parser (appid row) (name row) = Ok data)
      (slice g_app_list begin (resolve_end app_list end_)) app_data
    /\ fs' !! path_join dp dfn
       = Some (default EmptyString (fs !! path_join dp dfn)
               +:+ Csv.rows columns app_data).
Proof.
  intros Hs H0 Hlt Hne. assert (Hpos : 0 < batchsize) by lia.
  assert (Hle : begin <= resolve_end app_list end_) by lia.
  destruct (Batches.batch_points_defined begin (resolve_end app_list end_)
              batchsize Hpos) as [batches Hb].
  rewrite (process_batches_loop _ _ _ _ _ _ _ _ _ _ _ Hs Hb).
  intros Hrun.
  destruct (Loop.loop_sink g_app_list parser dp dfn ifn columns batches
              (batch_count begin (resolve_end app_list end_) batchsize)
              0 begin (resolve_end app_list end_) fs fs')
    as (app_data & Hd & Hsink & Hsome); try assumption.
  - intros i x Hx.
    pose proof (Batches.batch_points_ge _ _ _ _ i x Hpos Hle Hb Hx).
    lia.
  - intros i j x y Hij Hx Hy.
    destruct (Nat.eq_dec i j) as [->|Hn]; [assert (x = y) by congruence; lia|].
    assert (Hlt' : (i < j)%nat) by lia.
    pose proof (Batches.batch_points_increasing _ _ _ _ i j x y
                  Hpos Hb Hlt' Hx Hy). lia.
  - apply (Batches.batch_points_first _ _ _ _ Hpos Hle Hb).
  - apply (Batches.batch_points_last _ _ _ _ Hpos Hb).
  - exists app_data. split; [now apply Loop.collect_ok|].
    destruct Hsome as [s Hs'].
    + destruct (batch_count begin (resolve_end app_list end_) batchsize) eqn:E;
        [apply Batches.count_zero in E; lia | lia].
    + rewrite Hs' in Hsink |- *. simpl in Hsink. now rewrite Hsink.
Qed.

End Run.

(** * The claims *)

Import Py.

(** C5 -- Checkpoint read: whatever the builtin [int] does on the
    decoded first line, [get_index] returns 0 when the checkpoint file is
    absent, the integer that [int] gives for its first line when there is
    one, and raises ValueError, instead of returning 0, when the file is
    present and [int] rejects its first line; the files are left as they
    were. With the [int] of the model, which is Python's on what [print]
    writes, it reads back the integer the orchestrator or [reset_index]
    persisted. *)
Theorem get_index_absent_parsed_or_corrupt (int_ : string -> option Z)
    (dp ifn : string) (fs : gmap string string) :
  (fs !! path_join dp ifn = None ->
     get_index_with int_ dp ifn fs = (fs, Ok 0))
  /\ (forall s n, fs !! path_join dp ifn = Some s ->
        int_ (readline s) = Some n ->
        get_index_with int_ dp ifn fs = (fs, Ok n))
  /\ (forall s, fs !! path_join dp ifn = Some s ->
        int_ (readline s) = None ->
        get_index_with int_ dp ifn fs = (fs, Raise ValueError))
  /\ get_index dp ifn fs = get_index_with int dp ifn fs
  /\ (forall n, fs !! path_join dp ifn = Some (str n +:+ String nl EmptyString) ->
        get_index dp ifn fs = (fs, Ok n)).
Proof.
  unfold get_index, get_index_with, Fs.catch_file_not_found, Fs.bind,
    Fs.read_first_line.
  repeat split.
  - intros ->. reflexivity.
  - intros s n -> ->. reflexivity.
  - intros s -> ->. reflexivity.
  - intros n ->. now rewrite PyFacts.int_readline_str.
Qed.

(** C7 -- Sink initialisation: with index 0, [prepare_data_file] replaces
    whatever the sink held by exactly one row, the header of the declared
    columns, and touches no other file; with any other index it changes
    nothing. *)
Theorem prepare_data_file_wipes_only_at_zero (dp fn : string) (index : Z)
    (columns : list string) (fs : gmap string string) :
  (index = 0 ->
     prepare_data_file dp fn index columns fs
     = (<[path_join dp fn := Csv.row columns]> fs, Ok tt))
  /\ (index <> 0 -> prepare_data_file dp fn index columns fs = (fs, Ok tt)).
Proof.
  unfold prepare_data_file. split.
  - intros ->. reflexivity.
  - intros H. destruct (Z.eqb_spec index 0); [contradiction|reflexivity].
Qed.


(** C4 -- Atomic batch commit on fetch failure: when the first [i] batches
    complete and the parser raises on a row of the next batch, the run
    ends with an exception the parser raised on a row of that batch, and
    the files are exactly those left by the [i] completed batches: no row
    of the failed batch is in the sink and the checkpoint is the one
    persisted by the last completed batch. *)
Theorem failed_batch_commits_nothing (g_app_list : list entity)
    (parser : parser_t) (app_list : list entity) (dp dfn ifn : string)
    (columns : list string) (begin end_ batchsize : Z) (batches : list Z)
    (i : nat) (start stop : Z) (row : entity) (err : exn)
    (fs fsi : gmap string string) :
  1 <= batchsize ->
  batch_points begin (resolve_end app_list end_) batchsize = Some batches ->
  batches !! i = Some start -> batches !! S i = Some stop ->
  process_batches_upto (Some i) g_app_list parser app_list
    dp dfn ifn columns begin end_ batchsize fs = (fsi, Ok tt) ->
  row ∈ slice g_app_list start stop ->
  parser (appid row) (name row) = Raise err ->
  exists err' row',
    row' ∈ slice g_app_list start stop
    /\ parser (appid row') (name row') = Raise err'
    /\ process_batches g_app_list parser app_list
         dp dfn ifn columns begin end_ batchsize fs = (fsi, Raise err').
Proof.
  intros Hs Hb Hstart Hstop Hprefix Hin Hraise.
  destruct (Loop.collect_raises parser _ row err Hin Hraise)
    as (err' & row' & Hin' & Hraise' & Hcollect).
  exists err', row'. split; [assumption|]. split; [assumption|].
  pose proof (Run.lookup_within _ _ _ _ _ Hs Hb _ _ Hstop) as Hle.
  rewrite (Run.process_batches_upto_loop _ _ _ _ _ _ _ _ _ _ _ Hs Hb) in Hprefix.
  rewrite Nat.min_l in Hprefix by lia.
  rewrite (Run.process_batches_loop _ _ _ _ _ _ _ _ _ _ _ Hs Hb).
  set (total := batch_count begin (resolve_end app_list end_) batchsize) in *.
  replace total with (i + S (total - S i))%nat by lia.
  rewrite seq_app, Loop.batch_loop_app, Hprefix. simpl.
  unfold Fs.bind. rewrite Loop.batch_body_unfold, Hstart, Hstop.
  unfold get_app_data. now rewrite Hcollect.
Qed.

(** C1 -- Resumability: when a single pass from [begin] to [n] completes,
    stopping after any [S k] completed batches also completes, the
    checkpoint read back there is the stop of the last of these batches,
    and running again from that checkpoint ends with the very files of the
    single pass. The sink of the result is the former sink followed by one
    row per entity of [begin, n), in list order: none twice, none
    missing. The module-level list is the list passed, as in every call of
    the script. *)
Theorem resume_matches_single_pass (L : list entity) (parser : parser_t)
    (dp dfn ifn : string) (columns : list string) (begin n b : Z)
    (batches : list Z) (k : nat) (checkpoint : Z)
    (fs fs1 : gmap string string) :
  1 <= b -> 0 <= begin -> begin <= n -> n <= Z.of_nat (length L) ->
  path_join dp dfn <> path_join dp ifn ->
  batch_points begin n b = Some batches ->
  batches !! S k = Some checkpoint ->
  process_batches L parser L dp dfn ifn columns begin n b fs = (fs1, Ok tt) ->
  exists fsk app_data,
    process_batches_upto (Some (S k)) L parser L dp dfn ifn columns
      begin n b fs = (fsk, Ok tt)
    /\ get_index dp ifn fsk = (fsk, Ok checkpoint)
    /\ process_batches L parser L dp dfn ifn columns checkpoint n b fsk
       = (fs1, Ok tt)
    /\ Forall2 (fun row data => parser (appid row) (name row) = Ok data)
         (slice L begin n) app_data
    /\ length app_data = Z.to_nat (n - begin)
    /\ fs1 !! path_join dp dfn
       = Some (default EmptyString (fs !! path_join dp dfn)
               +:+ Csv.rows columns app_data).
Proof.
  intros Hs H0 Hle Hn Hne Hb Hk Hrun.
  assert (Hpos : 0 < b) by lia.
  assert (He : resolve_end L n = n) by (apply Run.resolve_end_explicit; lia).
  rewrite <- He in Hb.
  pose proof (Run.lookup_within _ _ _ _ _ Hs Hb _ _ Hk) as Hwithin.
  assert (Hlt : begin < resolve_end L n).
  { destruct (Z.le_gt_cases (resolve_end L n) begin) as [Hge|]; [|lia].
    apply (Batches.count_zero _ _ _ Hpos) in Hge. lia. }
  destruct (Run.run_sink L parser L dp dfn ifn columns begin n b fs fs1
              Hs H0 Hlt Hne Hrun) as (app_data & Hdata & Hsink).
  rewrite (Run.process_batches_loop _ _ _ _ _ _ _ _ _ _ _ Hs Hb) in Hrun.
  edestruct Run.split_run as (fsk & Hprefix & Hrest);
    [exact Hwithin | exact Hrun |].
  exists fsk, app_data. repeat split.
  - rewrite (Run.process_batches_upto_loop _ _ _ _ _ _ _ _ _ _ _ Hs Hb).
    now rewrite Nat.min_l.
  - apply Run.get_index_persisted.
    eapply Loop.loop_last_checkpoint; [exact Hprefix|exact Hk].
  - destruct (Batches.batch_points_resume _ _ _ _ (S k) checkpoint Hpos Hb Hk)
      as [Hb' Hc'].
    rewrite (Run.process_batches_loop _ _ _ _ _ _ _ _ _ _ _ Hs Hb').
    now rewrite Hc', Loop.batch_loop_drop.
  - now rewrite He in Hdata.
  - apply Forall2_length in Hdata. rewrite <- Hdata, He.
    apply Batches.slice_length; lia.
  - exact Hsink.
Qed.

(** C2 (amended) -- Clean completion: with an explicit end,
    [0 <= begin < end <= len(app_list)] and a batch size of at least 1, a
    run that completes leaves the checkpoint equal to [end] and has
    appended exactly [end - begin] rows to the sink, those of the
    entities of [begin, end) in order. The module-level list is the list
    passed and the sink and the checkpoint are two files. *)
Theorem clean_completion (L : list entity) (parser : parser_t)
    (dp dfn ifn : string) (columns : list string) (begin end_ b : Z)
    (fs fs' : gmap string string) :
  1 <= b -> 0 <= begin -> begin < end_ -> end_ <= Z.of_nat (length L) ->
  path_join dp dfn <> path_join dp ifn ->
  process_batches L parser L dp dfn ifn columns begin end_ b fs = (fs', Ok tt) ->
  get_index dp ifn fs' = (fs', Ok end_)
  /\ exists app_data,
       Forall2 (fun row data => parser (appid row) (name row) = Ok data)
         (slice L begin end_) app_data
       /\ length app_data = Z.to_nat (end_ - begin)
       /\ fs' !! path_join dp dfn
          = Some (default EmptyString (fs !! path_join dp dfn)
                  +:+ Csv.rows columns app_data).
Proof.
  intros Hs H0 Hlt Hn Hne Hrun.
  assert (He : resolve_end L end_ = end_) by (apply Run.resolve_end_explicit; lia).
  assert (Hlt' : begin < resolve_end L end_) by lia.
  split.
  - apply Run.get_index_persisted.
    pose proof (Run.run_checkpoint L parser L dp dfn ifn columns begin end_ b
                  fs fs' Hs Hlt' Hrun) as Hc.
    now rewrite He in Hc.
  - destruct (Run.run_sink L parser L dp dfn ifn columns begin end_ b fs fs'
                Hs H0 Hlt' Hne Hrun) as (app_data & Hdata & Hsink).
    rewrite He in Hdata. exists app_data. repeat split; try assumption.
    apply Forall2_length in Hdata. rewrite <- Hdata.
    apply Batches.slice_length; lia.
Qed.

(** C3 -- Default end index: called with the sentinel [end = -1], the run
    takes [len(app_list) + 1] as its end, and once it completes the
    checkpoint is [len(app_list) + 1], one more than the number of
    entities. *)
Theorem default_end_is_length_plus_one (g_app_list : list entity)
    (parser : parser_t) (app_list : list entity) (dp dfn ifn : string)
    (columns : list string) (begin b : Z) (fs fs' : gmap string string) :
  1 <= b -> begin <= Z.of_nat (length app_list) ->
  process_batches g_app_list parser app_list dp dfn ifn columns
    begin (-1) b fs = (fs', Ok tt) ->
  resolve_end app_list (-1) = Z.of_nat (length app_list) + 1
  /\ get_index dp ifn fs' = (fs', Ok (Z.of_nat (length app_list) + 1)).
Proof.
  intros Hs Hle Hrun. split; [apply Run.resolve_end_default|].
  apply Run.get_index_persisted.
  assert (Hlt : begin < resolve_end app_list (-1))
    by (rewrite Run.resolve_end_default; lia).
  pose proof (Run.run_checkpoint g_app_list parser app_list dp dfn ifn columns
                begin (-1) b fs fs' Hs Hlt Hrun) as Hc.
  now rewrite Run.resolve_end_default in Hc.
Qed.

(** C8 -- The entity list: the list passed to [process_batches] serves
    for its length only. Passing any list as long as the module-level
    list gives the very run that passing the module-level list gives, so
    the rows parsed and written are those of the module-level list. *)
Theorem app_list_argument_is_ignored (g_app_list : list entity)
    (parser : parser_t) (app_list : list entity) (dp dfn ifn : string)
    (columns : list string) (begin end_ b : Z) (fs : gmap string string) :
  length app_list = length g_app_list ->
  process_batches g_app_list parser app_list dp dfn ifn columns begin end_ b fs
  = process_batches g_app_list parser g_app_list dp dfn ifn columns
      begin end_ b fs.
Proof.
  intros Hlen. unfold process_batches, process_batches_upto, resolve_end.
  rewrite Hlen. reflexivity.
Qed.

(** C9 (amended) -- Error responses: [get_request] ends on no error
    response. Each response whose status is between 400 and 599 is
    handled as a missing response: the diagnostic, the wait of 10 seconds
    and a new attempt at the same request by a nested call. After [m]
    such responses, when the nested calls fit in the recursion limit, the
    first response whose status is outside that range ends the call:
    with its decoded body, or with the decoder's exception when the body
    is not JSON. *)
Theorem error_status_is_retried (ns : list string) (net : nat -> Http.outcome)
    (url : string) (parameters : list (string * string)) (m : nat) :
  forall (n fuel : nat) (r : Http.response),
  (forall i, (i < m)%nat ->
     exists r', net (n + i)%nat = Http.Responds r' /\ Http.truthy r' = false) ->
  net (n + m)%nat = Http.Responds r ->
  Http.truthy r = true ->
  Http.get_request (S m + fuel) ns net n url parameters
  = (concat (replicate m (Http.Get url parameters :: Http.throttle_cooldown))
       ++ [Http.Get url parameters],
     match Http.json_body r with
     | Some json_data => Http.Returned json_data
     | None => Http.Raised JSONDecodeError
     end).
Proof.
  induction m as [|m IH]; intros n fuel r Hbad Hgood Ht.
  - rewrite Nat.add_0_r in Hgood. cbn [Http.get_request Nat.add].
    rewrite Hgood, Ht. now destruct (Http.json_body r).
  - destruct (Hbad 0%nat ltac:(lia)) as (r' & Hr' & Hf).
    rewrite Nat.add_0_r in Hr'.
    change (S (S m) + fuel)%nat with (S (S m + fuel)).
    cbn [Http.get_request]. rewrite Hr', Hf.
    rewrite (IH (S n) fuel r); try assumption.
    + reflexivity.
    + intros i Hi. destruct (Hbad (S i) ltac:(lia)) as (r2 & H2 & Hf2).
      exists r2. split; [|assumption]. now rewrite Nat.add_succ_comm.
    + now rewrite Nat.add_succ_comm.
Qed.

(** C10 -- TLS retry path: no name SSLError is bound in the module, so
    when the transport raises a TLS error the [except SSLError] clause
    raises NameError: after the single request the call ends with that
    exception, with no diagnostic, no wait and no new attempt. *)
Theorem ssl_error_surfaces_as_name_error (fuel : nat)
    (net : nat -> Http.outcome) (n : nat) (url : string)
    (parameters : list (string * string)) (msg : string) :
  net n = Http.Raises (SSLError msg) ->
  Http.bound Http.module_globals "SSLError" = false
  /\ Http.get_request (S fuel) Http.module_globals net n url parameters
     = ([Http.Get url parameters], Http.Raised (NameError "SSLError")).
Proof.
  intros H. split; [reflexivity|].
  cbn [Http.get_request]. rewrite H.
  change (Http.bound Http.module_globals "SSLError") with false.
  reflexivity.
Qed.

(** Had the module bound the name SSLError, a TLS error would be followed
    by the diagnostic, the countdown of five seconds and a new attempt. *)
Lemma ssl_error_retried_when_bound (fuel : nat) (ns : list string)
    (net : nat -> Http.outcome) (n : nat) (url : string)
    (parameters : list (string * string)) (msg : string) :
  Http.bound ns "SSLError" = true ->
  net n = Http.Raises (SSLError msg) ->
  Http.get_request (S fuel) ns net n url parameters
  = (Http.Get url parameters :: Http.ssl_cooldown (SSLError msg)
       ++ fst (Http.get_request fuel ns net (S n) url parameters),
     snd (Http.get_request fuel ns net (S n) url parameters)).
Proof.
  intros Hb H. cbn [Http.get_request]. now rewrite H, Hb.
Qed.

(** ** The claims on the demonstration collection *)

Lemma resume_matches_single_pass_witness :
  exists fsk app_data,
    process_batches_upto (Some 1%nat) Demo.apps Demo.stub Demo.apps
      Demo.dir Demo.sink Demo.index_file Demo.columns 0 5 2 Demo.fresh
    = (fsk, Ok tt)
    /\ get_index Demo.dir Demo.index_file fsk = (fsk, Ok 2)
    /\ process_batches Demo.apps Demo.stub Demo.apps
         Demo.dir Demo.sink Demo.index_file Demo.columns 2 5 2 fsk
       = (Demo.final, Ok tt)
    /\ Forall2 (fun row data => Demo.stub (appid row) (name row) = Ok data)
         (slice Demo.apps 0 5) app_data
    /\ length app_data = Z.to_nat (5 - 0)
    /\ Demo.final !! path_join Demo.dir Demo.sink
       = Some (default EmptyString (Demo.fresh !! path_join Demo.dir Demo.sink)
               +:+ Csv.rows Demo.columns app_data).
Proof.
  apply (resume_matches_single_pass Demo.apps Demo.stub Demo.dir Demo.sink
           Demo.index_file Demo.columns 0 5 2 [0; 2; 4; 5] 0 2
           Demo.fresh Demo.final);
    [lia | lia | lia | simpl; lia | vm_compute; discriminate
    | reflexivity | reflexivity | vm_compute; reflexivity].
Defined.

Lemma clean_completion_witness :
  get_index Demo.dir Demo.index_file Demo.final = (Demo.final, Ok 5)
  /\ exists app_data,
       Forall2 (fun row data => Demo.stub (appid row) (name row) = Ok data)
         (slice Demo.apps 0 5) app_data
       /\ length app_data = Z.to_nat (5 - 0)
       /\ Demo.final !! path_join Demo.dir Demo.sink
          = Some (default EmptyString (Demo.fresh !! path_join Demo.dir Demo.sink)
                  +:+ Csv.rows Demo.columns app_data).
Proof.
  apply (clean_completion Demo.apps Demo.stub Demo.dir Demo.sink
           Demo.index_file Demo.columns 0 5 2 Demo.fresh Demo.final);
    [lia | lia | lia | simpl; lia | vm_compute; discriminate
    | vm_compute; reflexivity].
Defined.

(** C2, as stated, fails when [begin = end]: no batch runs and nothing is
    written to the checkpoint file. Here the checkpoint was reset to 0
    and the call with [begin = end = 2] completes and leaves it at 0. *)
Lemma completion_without_batch_keeps_checkpoint :
  snd (process_batches Demo.apps Demo.stub Demo.apps
         Demo.dir Demo.sink Demo.index_file Demo.columns 2 2 5 Demo.fresh)
  = Ok tt
  /\ snd (get_index Demo.dir Demo.index_file
            (fst (process_batches Demo.apps Demo.stub Demo.apps
                    Demo.dir Demo.sink Demo.index_file Demo.columns 2 2 5
                    Demo.fresh)))
     = Ok 0
  /\ (0 : Z) <> 2.
Proof. split; [|split]; [vm_compute; reflexivity..|discriminate]. Qed.

Lemma default_end_is_length_plus_one_witness :
  resolve_end Demo.apps (-1) = Z.of_nat (length Demo.apps) + 1
  /\ get_index Demo.dir Demo.index_file Demo.final_default
     = (Demo.final_default, Ok (Z.of_nat (length Demo.apps) + 1)).
Proof.
  apply (default_end_is_length_plus_one Demo.apps Demo.stub Demo.apps
           Demo.dir Demo.sink Demo.index_file Demo.columns 0 2
           Demo.fresh Demo.final_default);
    [lia | simpl; lia | vm_compute; reflexivity].
Defined.

Lemma failed_batch_commits_nothing_witness :
  exists err' row',
    row' ∈ slice Demo.apps 2 4
    /\ Demo.failing_on 30 (appid row') (name row') = Raise err'
    /\ process_batches Demo.apps (Demo.failing_on 30) Demo.apps
         Demo.dir Demo.sink Demo.index_file Demo.columns 0 5 2 Demo.fresh
       = (Demo.after_one, Raise err').
Proof.
  apply (failed_batch_commits_nothing Demo.apps (Demo.failing_on 30) Demo.apps
           Demo.dir Demo.sink Demo.index_file Demo.columns 0 5 2 [0; 2; 4; 5]
           1 2 4 (Entity 30 "C") (ParserError "no data")
           Demo.fresh Demo.after_one);
    [lia | reflexivity | reflexivity | reflexivity | vm_compute; reflexivity
    | vm_compute; constructor | reflexivity].
Defined.



Lemma app_list_argument_is_ignored_witness :
  process_batches Demo.apps Demo.stub Demo.other_apps
    Demo.dir Demo.sink Demo.index_file Demo.columns 0 5 2 Demo.fresh
  = process_batches Demo.apps Demo.stub Demo.apps
      Demo.dir Demo.sink Demo.index_file Demo.columns 0 5 2 Demo.fresh.
Proof.
  apply (app_list_argument_is_ignored Demo.apps Demo.stub Demo.other_apps).
  reflexivity.
Defined.

(** The rows written when [Demo.other_apps] is passed are those of the
    module-level [Demo.apps]. *)
Example passed_list_rows_are_module_rows :
  fst (process_batches Demo.apps Demo.stub Demo.other_apps
         Demo.dir Demo.sink Demo.index_file Demo.columns 0 5 5 ∅)
    !! path_join Demo.dir Demo.sink
  = Some (Csv.rows Demo.columns
            (map (fun row => <["appid" := str (appid row)]>
                               (<["name" := name row]>
                                  (<["value" := str (appid row * 10)]> ∅)))
               Demo.apps)).
Proof. vm_compute. reflexivity. Qed.

Lemma error_status_is_retried_witness :
  Http.get_request 2 Http.module_globals Demo.not_found_then_ok 0 Demo.url []
  = (concat (replicate 1 (Http.Get Demo.url [] :: Http.throttle_cooldown))
       ++ [Http.Get Demo.url []],
     match Http.json_body (Http.Response 200 (Some "{}")) with
     | Some json_data => Http.Returned json_data
     | None => Http.Raised JSONDecodeError
     end).
Proof.
  apply (error_status_is_retried Http.module_globals Demo.not_found_then_ok
           Demo.url [] 1 0 0 (Http.Response 200 (Some "{}")));
    [ | reflexivity | reflexivity].
  intros i Hi. exists (Http.Response 404 None).
  destruct i as [|i]; [split; reflexivity | lia].
Defined.

(** C9, as stated, fails on a 404 response: the client does not end
    there. It waits 10 seconds, asks again and returns what the second
    response holds. *)
Lemma not_found_is_retried :
  Http.truthy (Http.Response 404 None) = false
  /\ Http.get_request 2 Http.module_globals Demo.not_found_then_ok 0 Demo.url []
     = ([Http.Get Demo.url [];
         Http.Print (Http.line "No response, waiting 10 seconds...");
         Http.Sleep 10;
         Http.Print (Http.line "Retrying.");
         Http.Get Demo.url []],
        Http.Returned "{}").
Proof. split; reflexivity. Qed.

Lemma ssl_error_surfaces_as_name_error_witness :
  Http.bound Http.module_globals "SSLError" = false
  /\ Http.get_request 3 Http.module_globals Demo.tls_broken 0 Demo.url []
     = ([Http.Get Demo.url []], Http.Raised (NameError "SSLError")).
Proof.
  apply (ssl_error_surfaces_as_name_error 2 Demo.tls_broken 0 Demo.url []
           "handshake failure").
  reflexivity.
Defined.

(** ** More about the loop: frame, growth, origin of exceptions *)

Module More.
Import Py.

Lemma batch_loop_pointwise (f g : nat -> Fs.M unit) (l : list nat) :
  (forall i fs, f i fs = g i fs) ->
  forall fs, batch_loop f l fs = batch_loop g l fs.
Proof.
  intros H. induction l as [|i l IH]; intros fs; simpl; [reflexivity|].
  unfold Fs.bind. rewrite H. destruct (g i fs) as [fs1 [[]|e]]; auto.
Qed.


Lemma dict_row_same (columns : list string) (d1 d2 : gmap string string) :
  Forall (fun k => d1 !! k = d2 !! k) columns ->
  Csv.dict_row columns d1 = Csv.dict_row columns d2.
Proof.
  intros H. unfold Csv.dict_row. f_equal.
  induction H as [|k columns Hk _ IH]; simpl; [reflexivity|].
  now rewrite Hk, IH.
Qed.

Lemma collect_same (columns : list string) (p1 p2 : parser_t)
    (rows : list entity) :
  (forall appid name, same_on_columns columns (p1 appid name) (p2 appid name)) ->
  match collect p1 rows, collect p2 rows with
  | Ok d1, Ok d2 => Csv.rows columns d1 = Csv.rows columns d2
  | Raise e1, Raise e2 => e1 = e2
  | _, _ => False
  end.
Proof.
  intros H. induction rows as [|r rows IH]; simpl; [reflexivity|].
  pose proof (H (appid r) (name r)) as Hr. unfold same_on_columns in Hr.
  destruct (p1 (appid r) (name r)) as [d1|e1],
           (p2 (appid r) (name r)) as [d2|e2]; try contradiction; [|assumption].
  destruct (collect p1 rows) as [ds1|x1], (collect p2 rows) as [ds2|x2];
    try contradiction; [|assumption].
  unfold Csv.rows in *. cbn [map foldr].
  now rewrite (dict_row_same columns d1 d2 Hr), IH.
Qed.

Section Body.
Variables (g_app_list : list entity) (parser : parser_t).
Variables (dp dfn ifn : string) (columns : list string) (batches : list Z).

Local Abbreviation body := (batch_body g_app_list parser dp dfn ifn columns batches).
Local Abbreviation dpath := (path_join dp dfn).
Local Abbreviation ipath := (path_join dp ifn).

(** One batch either commits or leaves the files as they are. *)
Lemma body_cases (i : nat) (fs fs' : gmap string string) (r : result unit) :
  body i fs = (fs', r) ->
  (fs' = fs /\ exists e, r = Raise e)
  \/ (r = Ok tt /\ exists stop app_data,
        fs' = commit dpath ipath columns stop app_data fs).
Proof.
  rewrite Loop.batch_body_unfold.
  destruct (batches !! i) as [a|]; [|intros [= <- <-]; left; eauto].
  destruct (batches !! S i) as [c|]; [|intros [= <- <-]; left; eauto].
  destruct (get_app_data g_app_list a c parser) as [d|e];
    intros [= <- <-]; [right|left]; eauto.
Qed.

Lemma loop_frame (range : list nat) (fs fs' : gmap string string)
    (r : result unit) (p : string) :
  p <> dpath -> p <> ipath ->
  batch_loop body range fs = (fs', r) -> fs' !! p = fs !! p.
Proof.
  intros Hd Hi. revert fs. induction range as [|i range IH]; intros fs; simpl.
  - now intros [= <- <-].
  - unfold Fs.bind. destruct (body i fs) as [fs1 r1] eqn:E.
    apply body_cases in E as [[-> [e ->]]|[-> (stop & d & ->)]].
    + now intros [= <- <-].
    + intros H. rewrite (IH _ H). unfold commit.
      now rewrite !lookup_insert_ne by congruence.
Qed.

Lemma loop_grows (range : list nat) (fs fs' : gmap string string)
    (r : result unit) :
  dpath <> ipath ->
  batch_loop body range fs = (fs', r) ->
  exists added,
    default EmptyString (fs' !! dpath)
    = default EmptyString (fs !! dpath) +:+ added
    /\ (is_Some (fs !! dpath) -> is_Some (fs' !! dpath)).
Proof.
  intros Hne. revert fs. induction range as [|i range IH]; intros fs; simpl.
  - intros [= <- <-]. exists EmptyString. now rewrite Loop.append_nil_r.
  - unfold Fs.bind. destruct (body i fs) as [fs1 r1] eqn:E.
    apply body_cases in E as [[-> [e ->]]|[-> (stop & d & ->)]].
    + intros [= <- <-]. exists EmptyString. now rewrite Loop.append_nil_r.
    + intros H. destruct (IH _ H) as (added & Hadd & Hsome).
      assert (Hc : commit dpath ipath columns stop d fs !! dpath
                   = Some (default EmptyString (fs !! dpath)
                           +:+ Csv.rows columns d)).
      { unfold commit. rewrite lookup_insert_ne by congruence.
        apply lookup_insert_eq. }
      rewrite Hc in Hadd, Hsome. simpl in Hadd.
      exists (Csv.rows columns d +:+ added).
      split; [now rewrite Hadd, Loop.append_assoc|].
      intros _. apply Hsome. eauto.
Qed.

End Body.


(** A call changes no file other than the sink and the checkpoint. *)
Lemma run_frame (g_app_list : list entity) (parser : parser_t)
    (app_list : list entity) (dp dfn ifn : string) (columns : list string)
    (begin end_ b : Z) (fs fs' : gmap string string) (r : result unit)
    (p : string) :
  p <> path_join dp dfn -> p <> path_join dp ifn ->
  process_batches g_app_list parser app_list dp dfn ifn columns
    begin end_ b fs = (fs', r) ->
  fs' !! p = fs !! p.
Proof.
  intros Hd Hi. unfold process_batches, process_batches_upto. cbv zeta.
  destruct (batch_points begin (resolve_end app_list end_) b) as [batches|];
    [|now intros [= <- <-]].
  intros E. eapply loop_frame; [exact Hd|exact Hi|exact E].
Qed.

Lemma slice_to_end {A} (l : list A) (a c : Z) :
  0 <= a -> Z.of_nat (length l) <= c ->
  slice l a c = drop (Z.to_nat a) l.
Proof.
  intros Ha Hc. unfold slice, clamp_index.
  destruct (Z.ltb_spec a 0), (Z.ltb_spec c 0); try lia.
  destruct (Z.le_gt_cases a (Z.of_nat (length l))).
  - rewrite (Z.min_l a) by lia. apply take_ge. rewrite length_drop. lia.
  - rewrite !drop_ge by lia. now rewrite take_nil.
Qed.

Lemma slice_short {A} (l : list A) (a c b : Z) :
  a <= c -> c - a <= b -> (length (slice l a c) <= Z.to_nat b)%nat.
Proof.
  intros Hac H. unfold slice, clamp_index. rewrite length_take.
  destruct (Z.ltb_spec a 0), (Z.ltb_spec c 0); lia.
Qed.

End More.

(** * Further properties of the orchestrator *)

(** X2 -- When [begin] has reached the end, no batch runs: the call
    completes without calling the parser and leaves every file as it
    is. *)
Theorem no_batch_when_begin_reaches_end (g_app_list : list entity)
    (parser : parser_t) (app_list : list entity) (dp dfn ifn : string)
    (columns : list string) (begin end_ b : Z) (fs : gmap string string) :
  1 <= b -> resolve_end app_list end_ <= begin ->
  process_batches g_app_list parser app_list dp dfn ifn columns
    begin end_ b fs = (fs, Ok tt).
Proof.
  intros Hs Hge. assert (Hpos : 0 < b) by lia.
  destruct (Batches.batch_points_defined begin (resolve_end app_list end_)
              b Hpos) as [batches Hb].
  rewrite (Run.process_batches_loop _ _ _ _ _ _ _ _ _ _ _ Hs Hb).
  apply (Batches.count_zero _ _ _ Hpos) in Hge. now rewrite Hge.
Qed.

(** X3 -- Batch widths: consecutive boundaries are between 1 and
    [batchsize] apart, exactly [batchsize] apart for every batch but the
    last, and a batch hands at most [batchsize] rows to the parser. *)
Theorem batch_spans_at_most_batchsize (g_app_list : list entity)
    (begin end_ b : Z) (batches : list Z) (i : nat) (start stop : Z) :
  1 <= b ->
  batch_points begin end_ b = Some batches ->
  batches !! i = Some start -> batches !! S i = Some stop ->
  0 < stop - start <= b
  /\ ((S (S i) < length batches)%nat -> stop - start = b)
  /\ (length (slice g_app_list start stop) <= Z.to_nat b)%nat.
Proof.
  intros Hs Hb Hi HSi. assert (Hpos : 0 < b) by lia.
  rewrite (Batches.batch_points_length _ _ _ _ Hpos Hb).
  rewrite (Batches.batch_points_lookup _ _ _ _ i Hpos Hb) in Hi.
  rewrite (Batches.batch_points_lookup _ _ _ _ (S i) Hpos Hb) in HSi.
  pose proof (Batches.count_lt begin end_ b i Hpos) as Li.
  pose proof (Batches.count_lt begin end_ b (S i) Hpos) as LSi.
  assert (Hw : 0 < stop - start <= b
               /\ ((S i < batch_count begin end_ b)%nat -> stop - start = b)).
  { destruct (Nat.ltb_spec i (batch_count begin end_ b)) as [H1|H1];
    destruct (Nat.ltb_spec (S i) (batch_count begin end_ b)) as [H2|H2];
    destruct (Nat.eqb_spec i (batch_count begin end_ b));
    destruct (Nat.eqb_spec (S i) (batch_count begin end_ b));
      try lia; try discriminate; injection Hi as <-; injection HSi as <-.
    - split; [lia|]. intros _. lia.
    - apply Li in H1. split; [|lia].
      assert (~ begin + Z.of_nat (S i) * b < end_) by (intros H; apply LSi in H; lia).
      lia. }
  destruct Hw as [Hw1 Hw2]. split; [exact Hw1|]. split.
  - intros H. apply Hw2. lia.
  - apply More.slice_short; lia.
Qed.

(** X4 -- Frame: whatever the arguments and however the call ends,
    [process_batches] changes no file other than the sink and the
    checkpoint. *)
Theorem process_batches_touches_two_files (g_app_list : list entity)
    (parser : parser_t) (app_list : list entity) (dp dfn ifn : string)
    (columns : list string) (begin end_ b : Z) (fs : gmap string string)
    (p : string) :
  p <> path_join dp dfn -> p <> path_join dp ifn ->
  fst (process_batches g_app_list parser app_list dp dfn ifn columns
         begin end_ b fs) !! p = fs !! p.
Proof.
  intros Hd Hi.
  destruct (process_batches g_app_list parser app_list dp dfn ifn columns
              begin end_ b fs) as [fs' r] eqn:E.
  simpl. eapply More.run_frame; [exact Hd|exact Hi|exact E].
Qed.

(** X5 -- Append only: whatever the arguments and however the call ends,
    what the sink held before the call is still the beginning of what it
    holds after it. *)
Theorem process_batches_only_appends (g_app_list : list entity)
    (parser : parser_t) (app_list : list entity) (dp dfn ifn : string)
    (columns : list string) (begin end_ b : Z) (fs : gmap string string)
    (old : string) :
  path_join dp dfn <> path_join dp ifn ->
  fs !! path_join dp dfn = Some old ->
  exists added,
    fst (process_batches g_app_list parser app_list dp dfn ifn columns
           begin end_ b fs) !! path_join dp dfn
    = Some (old +:+ added).
Proof.
  intros Hne Hold. unfold process_batches, process_batches_upto. cbv zeta.
  destruct (batch_points begin (resolve_end app_list end_) b) as [batches|].
  - destruct (batch_loop _ _ fs) as [fs' r] eqn:E.
    destruct (More.loop_grows _ _ _ _ _ _ _ _ _ _ _ Hne E)
      as (added & Hadd & Hsome).
    exists added. rewrite Hold in Hadd, Hsome. simpl in Hadd |- *.
    destruct Hsome as [s Hs']; [eauto|].
    rewrite Hs' in Hadd |- *. simpl in Hadd. now rewrite Hadd.
  - exists EmptyString. simpl. now rewrite Loop.append_nil_r.
Qed.



(** X7 -- Default end: called with [end = -1] on a list at least as long
    as the module-level one, a run that completes has appended one row
    per entity from [begin] to the very end of the module-level list, in
    order: the end set one past the length loses no row and adds none. *)
Theorem default_end_collects_rest_of_list (g_app_list : list entity)
    (parser : parser_t) (app_list : list entity) (dp dfn ifn : string)
    (columns : list string) (begin b : Z) (fs fs' : gmap string string) :
  1 <= b -> 0 <= begin -> begin <= Z.of_nat (length app_list) ->
  (length g_app_list <= length app_list)%nat ->
  path_join dp dfn <> path_join dp ifn ->
  process_batches g_app_list parser app_list dp dfn ifn columns
    begin (-1) b fs = (fs', Ok tt) ->
  exists app_data,
    Forall2 (fun row data => parser (appid row) (name row) = Ok data)
      (drop (Z.to_nat begin) g_app_list) app_data
    /\ fs' !! path_join dp dfn
       = Some (default EmptyString (fs !! path_join dp dfn)
               +:+ Csv.rows columns app_data).
Proof.
  intros Hs H0 Hle Hlen Hne Hrun.
  assert (Hlt : begin < resolve_end app_list (-1))
    by (rewrite Run.resolve_end_default; lia).
  destruct (Run.run_sink g_app_list parser app_list dp dfn ifn columns
              begin (-1) b fs fs' Hs H0 Hlt Hne Hrun)
    as (app_data & Hdata & Hsink).
  exists app_data. split; [|exact Hsink].
  rewrite More.slice_to_end in Hdata; [exact Hdata|lia|].
  rewrite Run.resolve_end_default. lia.
Qed.

(** X8 -- Undeclared keys: two parsers whose results agree on the
    declared columns (and raise alike) give the same run, files and
    outcome: a key of a record that is no declared column is never
    written and never an error. *)
Theorem undeclared_keys_do_not_matter (g_app_list : list entity)
    (p1 p2 : parser_t) (app_list : list entity) (dp dfn ifn : string)
    (columns : list string) (begin end_ b : Z) (fs : gmap string string) :
  (forall appid name, same_on_columns columns (p1 appid name) (p2 appid name)) ->
  process_batches g_app_list p1 app_list dp dfn ifn columns begin end_ b fs
  = process_batches g_app_list p2 app_list dp dfn ifn columns begin end_ b fs.
Proof.
  intros H. unfold process_batches, process_batches_upto. cbv zeta.
  destruct (batch_points begin (resolve_end app_list end_) b) as [batches|];
    [|reflexivity].
  apply More.batch_loop_pointwise. intros i f.
  rewrite !Loop.batch_body_unfold.
  destruct (batches !! i) as [a|]; [|reflexivity].
  destruct (batches !! S i) as [c|]; [|reflexivity].
  unfold get_app_data.
  pose proof (More.collect_same columns p1 p2 (slice g_app_list a c) H) as Hc.
  destruct (collect p1 (slice g_app_list a c)) as [d1|e1],
           (collect p2 (slice g_app_list a c)) as [d2|e2];
    try contradiction; [|now subst].
  unfold commit. now rewrite Hc.
Qed.

(** Whether a run completes does not depend on the files it starts
    from. *)
Lemma loop_outcome_any_files (g_app_list : list entity) (parser : parser_t)
    (dp dfn ifn : string) (columns : list string) (batches : list Z)
    (range : list nat) (f1 f2 : gmap string string) :
  snd (batch_loop (batch_body g_app_list parser dp dfn ifn columns batches)
         range f1)
  = snd (batch_loop (batch_body g_app_list parser dp dfn ifn columns batches)
           range f2).
Proof.
  revert f1 f2. induction range as [|i range IH]; intros f1 f2; simpl.
  - reflexivity.
  - unfold Fs.bind. rewrite !Loop.batch_body_unfold.
    destruct (batches !! i) as [a|]; [|reflexivity].
    destruct (batches !! S i) as [c|]; [|reflexivity].
    destruct (get_app_data g_app_list a c parser); [apply IH|reflexivity].
Qed.

Lemma collected_once (parser : parser_t) (rows : list entity)
    (d1 d2 : list (gmap string string)) :
  Forall2 (fun row data => parser (appid row) (name row) = Ok data) rows d1 ->
  Forall2 (fun row data => parser (appid row) (name row) = Ok data) rows d2 ->
  d1 = d2.
Proof.
  intros H1 H2. apply Loop.collect_ok in H1, H2. congruence.
Qed.

(** What a completed download section leaves. *)
Lemma download_files (g_app_list : list entity) (parser : parser_t)
    (dp dfn ifn : string) (columns : list string) (end_ b : Z)
    (fs fs' : gmap string string) :
  1 <= b -> 0 < resolve_end g_app_list end_ ->
  path_join dp dfn <> path_join dp ifn ->
  download g_app_list parser dp dfn ifn columns end_ b fs = (fs', Ok tt) ->
  exists app_data,
    Forall2 (fun row data => parser (appid row) (name row) = Ok data)
      (slice g_app_list 0 (resolve_end g_app_list end_)) app_data
    /\ fs' = <[path_join dp ifn :=
                 str (resolve_end g_app_list end_) +:+ String nl EmptyString]>
               (<[path_join dp dfn :=
                    Csv.header columns +:+ Csv.rows columns app_data]> fs).
Proof.
  intros Hs He Hne. unfold download, Fs.bind.
  unfold reset_index at 1, Fs.write_file at 1.
  rewrite (Run.get_index_persisted dp ifn 0) by apply lookup_insert_eq.
  unfold prepare_data_file, Fs.write_file. simpl (0 =? 0).
  cbv beta iota. intros Hrun.
  destruct (Run.run_sink _ _ _ _ _ _ _ _ _ _ _ _ Hs (Z.le_refl 0) He Hne Hrun)
    as (app_data & Hdata & Hsink).
  pose proof (Run.run_checkpoint _ _ _ _ _ _ _ _ _ _ _ _ Hs He Hrun) as Hcheck.
  exists app_data. split; [exact Hdata|].
  rewrite lookup_insert_eq in Hsink. simpl in Hsink.
  apply map_eq. intros p.
  destruct (decide (p = path_join dp ifn)) as [->|Hpi].
  - now rewrite lookup_insert_eq.
  - rewrite lookup_insert_ne by congruence.
    destruct (decide (p = path_join dp dfn)) as [->|Hpd].
    + now rewrite lookup_insert_eq.
    + rewrite lookup_insert_ne by congruence.
      rewrite (More.run_frame _ _ _ _ _ _ _ _ _ _ _ _ _ p Hpd Hpi Hrun).
      now rewrite !lookup_insert_ne by congruence.
Qed.

(** X9 -- A download section always starts from scratch: since it resets
    the index before reading it, whatever the sink and the index held is
    discarded. When it completes, the sink is the header followed by one
    row per entity of the slice from 0 to the end, the index is the end,
    every other file is as it was, and running the section again
    completes and leaves these very files. *)
Theorem download_starts_from_scratch (g_app_list : list entity)
    (parser : parser_t) (dp dfn ifn : string) (columns : list string)
    (end_ b : Z) (fs fs' : gmap string string) :
  1 <= b -> 0 < resolve_end g_app_list end_ ->
  path_join dp dfn <> path_join dp ifn ->
  download g_app_list parser dp dfn ifn columns end_ b fs = (fs', Ok tt) ->
  exists app_data,
    Forall2 (fun row data => parser (appid row) (name row) = Ok data)
      (slice g_app_list 0 (resolve_end g_app_list end_)) app_data
    /\ fs' = <[path_join dp ifn :=
                 str (resolve_end g_app_list end_) +:+ String nl EmptyString]>
               (<[path_join dp dfn :=
                    Csv.header columns +:+ Csv.rows columns app_data]> fs)
    /\ download g_app_list parser dp dfn ifn columns end_ b fs' = (fs', Ok tt).
Proof.
  intros Hs He Hne Hrun.
  destruct (download_files _ _ _ _ _ _ _ _ _ _ Hs He Hne Hrun)
    as (d1 & Hd1 & Hfs').
  exists d1. split; [exact Hd1|]. split; [exact Hfs'|].
  destruct (download g_app_list parser dp dfn ifn columns end_ b fs')
    as [fs2 r2] eqn:E2.
  assert (Hr : r2 = Ok tt).
  { revert Hrun E2. unfold download, Fs.bind.
    unfold reset_index, Fs.write_file.
    rewrite !(Run.get_index_persisted dp ifn 0) by apply lookup_insert_eq.
    unfold prepare_data_file, Fs.write_file. simpl (0 =? 0). cbv beta iota.
    unfold process_batches, process_batches_upto. cbv zeta.
    destruct (batch_points 0 (resolve_end g_app_list end_) b) as [batches|];
      [|discriminate].
    intros H1 H2. apply (f_equal snd) in H1, H2. simpl in H1, H2.
    rewrite <- H2, <- H1. apply loop_outcome_any_files. }
  subst r2. f_equal.
  destruct (download_files _ _ _ _ _ _ _ _ _ _ Hs He Hne E2)
    as (d2 & Hd2 & ->).
  rewrite (collected_once _ _ _ _ Hd2 Hd1). rewrite Hfs'.
  apply map_eq. intros p.
  destruct (decide (p = path_join dp ifn)) as [->|Hpi];
    [now rewrite !lookup_insert_eq|].
  rewrite !(lookup_insert_ne _ (path_join dp ifn)) by congruence.
  destruct (decide (p = path_join dp dfn)) as [->|Hpd];
    [now rewrite !lookup_insert_eq|].
  rewrite !(lookup_insert_ne _ (path_join dp dfn)) by congruence.
  rewrite !(lookup_insert_ne _ (path_join dp ifn)) by congruence.
  now rewrite !(lookup_insert_ne _ (path_join dp dfn)) by congruence.
Qed.

(** * Further properties of the HTTP client *)


(** X11 -- Every exception of the transport, a refused connection as
    much as a TLS error, reaches the caller as NameError: the clause
    [except SSLError] fails on its unbound name before it can tell the
    exceptions apart. *)
Theorem transport_exception_becomes_name_error (fuel : nat)
    (net : nat -> Http.outcome) (n : nat) (url : string)
    (parameters : list (string * string)) (e : exn) :
  net n = Http.Raises e ->
  Http.get_request (S fuel) Http.module_globals net n url parameters
  = ([Http.Get url parameters], Http.Raised (NameError "SSLError")).
Proof.
  intros H. cbn [Http.get_request]. rewrite H.
  change (Http.bound Http.module_globals "SSLError") with false.
  reflexivity.
Qed.

(** X12 -- What [get_request] returns is the decoded body of a response
    with a status outside 400-599, and every attempt before that one was
    answered with an error status and followed by the wait of 10
    seconds. *)
Theorem returned_body_is_first_good_response (net : nat -> Http.outcome)
    (url : string) (parameters : list (string * string)) (fuel : nat) :
  forall (n : nat) (trace : list Http.event) (json_data : string),
  Http.get_request fuel Http.module_globals net n url parameters
  = (trace, Http.Returned json_data) ->
  exists (m : nat) (r : Http.response),
    (m < fuel)%nat
    /\ net (n + m)%nat = Http.Responds r
    /\ Http.truthy r = true /\ Http.json_body r = Some json_data
    /\ (forall i, (i < m)%nat ->
          exists r', net (n + i)%nat = Http.Responds r'
                     /\ Http.truthy r' = false)
    /\ trace = concat (replicate m (Http.Get url parameters
                                    :: Http.throttle_cooldown))
               ++ [Http.Get url parameters].
Proof.
  induction fuel as [|fuel IH]; intros n trace json_data; [discriminate|].
  cbn [Http.get_request].
  destruct (net n) as [e|r] eqn:En.
  - change (Http.bound Http.module_globals "SSLError") with false.
    discriminate.
  - destruct (Http.truthy r) eqn:Et.
    + destruct (Http.json_body r) as [j|] eqn:Ej; [|discriminate].
      intros [= <- <-]. exists 0%nat, r. rewrite Nat.add_0_r.
      split; [lia|]. split; [assumption|]. split; [assumption|].
      split; [assumption|]. split; [|reflexivity]. intros i Hi. lia.
    + destruct (Http.get_request fuel Http.module_globals net (S n) url
                  parameters) as [tr a] eqn:Er.
      simpl fst. simpl snd. intros [= <- ->].
      destruct (IH _ _ _ Er) as (m & r' & Hm & Hnet & Ht & Hj & Hbad & ->).
      exists (S m), r'. rewrite <- Nat.add_succ_comm.
      split; [lia|]. split; [assumption|]. split; [assumption|].
      split; [assumption|]. split; [|reflexivity].
      intros i Hi. destruct i as [|i].
      * exists r. rewrite Nat.add_0_r. split; assumption.
      * destruct (Hbad i ltac:(lia)) as (r2 & H2 & Hf2).
        exists r2. split; [|assumption]. now rewrite <- Nat.add_succ_comm.
Qed.

(** ** The further properties on the demonstration collection *)

Lemma no_batch_when_begin_reaches_end_witness :
  process_batches Demo.apps (Demo.failing_on 30) Demo.apps Demo.dir Demo.sink
    Demo.index_file Demo.columns 5 5 2 Demo.used = (Demo.used, Ok tt).
Proof.
  apply (no_batch_when_begin_reaches_end Demo.apps (Demo.failing_on 30)
           Demo.apps Demo.dir Demo.sink Demo.index_file Demo.columns 5 5 2
           Demo.used); [lia | unfold resolve_end; simpl; lia].
Defined.

Lemma batch_spans_at_most_batchsize_witness :
  0 < 5 - 4 <= 2
  /\ ((S (S 2) < length [0; 2; 4; 5])%nat -> 5 - 4 = 2)
  /\ (length (slice Demo.apps 4 5) <= Z.to_nat 2)%nat.
Proof.
  apply (batch_spans_at_most_batchsize Demo.apps 0 5 2 [0; 2; 4; 5] 2 4 5);
    [lia | reflexivity | reflexivity | reflexivity].
Defined.

Lemma process_batches_touches_two_files_witness :
  fst (process_batches Demo.apps Demo.stub Demo.apps Demo.dir Demo.sink
         Demo.index_file Demo.columns 0 5 2 Demo.used) !! "notes.txt"
  = Demo.used !! "notes.txt".
Proof.
  apply (process_batches_touches_two_files Demo.apps Demo.stub Demo.apps
           Demo.dir Demo.sink Demo.index_file Demo.columns 0 5 2 Demo.used
           "notes.txt"); vm_compute; discriminate.
Defined.

Lemma process_batches_only_appends_witness :
  exists added,
    fst (process_batches Demo.apps (Demo.failing_on 30) Demo.apps Demo.dir
           Demo.sink Demo.index_file Demo.columns 0 5 2 Demo.used)
      !! path_join Demo.dir Demo.sink
    = Some ("appid,name,value" +:+ added).
Proof.
  apply (process_batches_only_appends Demo.apps (Demo.failing_on 30) Demo.apps
           Demo.dir Demo.sink Demo.index_file Demo.columns 0 5 2 Demo.used
           "appid,name,value"); [vm_compute; discriminate | reflexivity].
Defined.


Lemma default_end_collects_rest_of_list_witness :
  exists app_data,
    Forall2 (fun row data => Demo.stub (appid row) (name row) = Ok data)
      (drop (Z.to_nat 0) Demo.apps) app_data
    /\ Demo.final_default !! path_join Demo.dir Demo.sink
       = Some (default EmptyString (Demo.fresh !! path_join Demo.dir Demo.sink)
               +:+ Csv.rows Demo.columns app_data).
Proof.
  apply (default_end_collects_rest_of_list Demo.apps Demo.stub Demo.apps
           Demo.dir Demo.sink Demo.index_file Demo.columns 0 2 Demo.fresh
           Demo.final_default);
    [lia | lia | simpl; lia | simpl; lia | vm_compute; discriminate
    | vm_compute; reflexivity].
Defined.

Lemma undeclared_keys_do_not_matter_witness :
  process_batches Demo.apps Demo.verbose_stub Demo.apps Demo.dir Demo.sink
    Demo.index_file Demo.columns 0 5 2 Demo.fresh
  = process_batches Demo.apps Demo.stub Demo.apps Demo.dir Demo.sink
      Demo.index_file Demo.columns 0 5 2 Demo.fresh.
Proof.
  apply (undeclared_keys_do_not_matter Demo.apps Demo.verbose_stub Demo.stub
           Demo.apps Demo.dir Demo.sink Demo.index_file Demo.columns 0 5 2
           Demo.fresh).
  intros appid name. unfold same_on_columns, Demo.verbose_stub, Demo.stub,
    Demo.columns.
  repeat constructor.
Defined.

Lemma download_starts_from_scratch_witness :
  exists app_data,
    Forall2 (fun row data => Demo.stub (appid row) (name row) = Ok data)
      (slice Demo.apps 0 (resolve_end Demo.apps 2)) app_data
    /\ Sample.downloaded
       = <[path_join Demo.dir Demo.index_file :=
             str (resolve_end Demo.apps 2) +:+ String nl EmptyString]>
           (<[path_join Demo.dir Demo.sink :=
                Csv.header Demo.columns +:+ Csv.rows Demo.columns app_data]>
              Demo.used)
    /\ download Demo.apps Demo.stub Demo.dir Demo.sink Demo.index_file
         Demo.columns 2 5 Sample.downloaded = (Sample.downloaded, Ok tt).
Proof.
  apply (download_starts_from_scratch Demo.apps Demo.stub Demo.dir Demo.sink
           Demo.index_file Demo.columns 2 5 Demo.used Sample.downloaded);
    [lia | reflexivity | vm_compute; discriminate | vm_compute; reflexivity].
Defined.


Lemma transport_exception_becomes_name_error_witness :
  Http.get_request 1 Http.module_globals Demo.refused 0 Demo.url []
  = ([Http.Get Demo.url []], Http.Raised (NameError "SSLError")).
Proof.
  apply (transport_exception_becomes_name_error 0 Demo.refused 0 Demo.url []
           (ConnectionError "connection refused")).
  reflexivity.
Defined.

Lemma returned_body_is_first_good_response_witness :
  exists (m : nat) (r : Http.response),
    (m < 2)%nat
    /\ Demo.not_found_then_ok (0 + m)%nat = Http.Responds r
    /\ Http.truthy r = true /\ Http.json_body r = Some "{}"
    /\ (forall i, (i < m)%nat ->
          exists r', Demo.not_found_then_ok (0 + i)%nat = Http.Responds r'
                     /\ Http.truthy r' = false)
    /\ Sample.retried_once
       = concat (replicate m (Http.Get Demo.url [] :: Http.throttle_cooldown))
         ++ [Http.Get Demo.url []].
Proof.
  apply (returned_body_is_first_good_response Demo.not_found_then_ok Demo.url
           [] 2 0 Sample.retried_once "{}").
  reflexivity.
Defined.
